(** * WifiViewer: the credential-extraction core of [WifiViewer.cpp]

    A shallow embedding of the string helpers ([trim_w], [tolower_w]), of the
    structured extractor ([extractKeyMaterial]), of the netsh fallback
    ([try_netsh_parse]) and of the per-profile policy of [wmain], followed by
    the properties the specification states about them.

    Conventions.
    - [std::wstring] is a list of 16-bit code units ([wchar_t], as [N]);
      [std::string] is a list of bytes ([ascii]).
    - [size_t] positions are [nat]; [npos] is [None].  Every position the
      program computes is bounded by the length of a string it indexes
      (lemmas [find_bound], [extract_positions_ordered]), so no [size_t]
      addition or subtraction of the program wraps.
    - [substr] throws [std::out_of_range] when its position is past the end:
      a computation that may throw returns a [res], [Raise] being the throw.
    - The C runtime and Win32 functions the program calls but does not define
      ([towlower], [iswspace], [tolower], [isspace], [MultiByteToWideChar],
      [WideCharToMultiByte], [_popen]) are the fields of a [Platform]; the
      general theorems hold for every platform. *)

From Stdlib Require Import Ascii String.
From Stdlib Require Import List Arith Bool NArith Lia.
Import ListNotations.

Set Implicit Arguments.

(* ------------------------------------------------------------------------- *)
(** ** Characters *)

Class CharT (C : Type) := {
  ch_eqb : C -> C -> bool;
  ch_eqb_spec : forall a b : C, reflect (a = b) (ch_eqb a b)
}.

Definition wchar_t := N.
Definition char := ascii.
Definition wstring := list wchar_t.
Definition cstring := list char.

#[export] Instance CharT_wchar : CharT wchar_t :=
  {| ch_eqb := N.eqb; ch_eqb_spec := N.eqb_spec |}.

#[export] Instance CharT_char : CharT char :=
  {| ch_eqb := Ascii.eqb; ch_eqb_spec := Ascii.eqb_spec |}.

(** A narrow literal and a wide ([L"..."]) literal. *)
Definition lit (s : string) : cstring := list_ascii_of_string s.
Definition L (s : string) : wstring := map N_of_ascii (list_ascii_of_string s).

(* ------------------------------------------------------------------------- *)
(** ** Results of computations that may throw *)

Inductive exn : Type :=
| out_of_range   (* thrown by [substr] *)
| out_of_fuel.   (* the model of a loop ran out of iterations *)

Inductive res (A : Type) : Type :=
| Ok (a : A)
| Raise (e : exn).

Arguments Ok {A} a.
Arguments Raise {A} e.

Definition bind {A B : Type} (m : res A) (k : A -> res B) : res B :=
  match m with
  | Ok a => k a
  | Raise e => Raise e
  end.

Notation "x <- m ;; k" := (bind m (fun x => k))
  (at level 61, m at next level, right associativity).

(* ------------------------------------------------------------------------- *)
(** ** [std::basic_string] members used by the program *)

Section basic_string.
Context {C : Type} `{CharT C}.

(** Does [needle] start at the head of [s]? *)
Fixpoint prefix_at (needle s : list C) : bool :=
  match needle, s with
  | [], _ => true
  | _ :: _, [] => false
  | x :: needle', y :: s' => ch_eqb x y && prefix_at needle' s'
  end.

(** The search loop of [find]: [s] is the text from position [i] on. *)
Fixpoint find_in (needle s : list C) (i : nat) : option nat :=
  if prefix_at needle s then Some i
  else match s with
       | [] => None
       | _ :: s' => find_in needle s' (S i)
       end.

(** [s.find(needle, pos)]: the lowest position [>= pos] at which [needle]
    occurs, [npos] when there is none or when [pos > s.size()]. *)
Definition find (s needle : list C) (pos : nat) : option nat :=
  if pos <=? length s then find_in needle (skipn pos s) pos else None.

(** [s.find(c, pos)], the single-character overload. *)
Definition find_char (s : list C) (c : C) (pos : nat) : option nat :=
  find s [c] pos.

(** [s.substr(pos, n)]: throws when [pos > s.size()], otherwise the at most
    [n] characters from [pos]. *)
Definition substr (s : list C) (pos n : nat) : res (list C) :=
  if pos <=? length s then Ok (firstn n (skipn pos s)) else Raise out_of_range.

(** [s.substr(pos)]: the count defaults to [npos], that is, to the end. *)
Definition substr_from (s : list C) (pos : nat) : res (list C) :=
  if pos <=? length s then Ok (skipn pos s) else Raise out_of_range.

(** [s[i]] for an index the caller has checked to be in range. *)
Definition at_ (s : list C) (i : nat) : option C := nth_error s i.

(** *** What an occurrence is *)

Definition occurs_at (needle s : list C) (i : nat) : Prop :=
  i + length needle <= length s /\
  firstn (length needle) (skipn i s) = needle.

(** [i] is the first occurrence of [needle] in [s] at or after [pos]. *)
Definition first_at (needle s : list C) (pos i : nat) : Prop :=
  pos <= i /\ occurs_at needle s i /\
  forall j, pos <= j < i -> ~ occurs_at needle s j.

Definition absent_from (needle s : list C) (pos : nat) : Prop :=
  forall j, pos <= j -> ~ occurs_at needle s j.

(** *** Trimming, generic in the classification function *)

Variable is_space : C -> bool.

(** [while (a < s.size() && is_space(s[a])) ++a;] with [s] the text from
    [a] on. *)
Fixpoint skip_front (s : list C) (a : nat) : nat :=
  match s with
  | [] => a
  | c :: s' => if is_space c then skip_front s' (S a) else a
  end.

(** [while (b > a && is_space(s[b - 1])) --b;] *)
Fixpoint skip_back (s : list C) (a b : nat) : nat :=
  match b with
  | 0 => 0
  | S b' =>
      if (a <? b) && match at_ s b' with Some c => is_space c | None => false end
      then skip_back s a b'
      else b
  end.

(** The body shared by [trim_w] and by the inline trim of
    [try_netsh_parse]. *)
Definition trim_with (s : list C) : res (list C) :=
  let a := skip_front s 0 in
  let b := skip_back s a (length s) in
  substr s a (b - a).

(** The same, said with list functions: drop the leading run of
    whitespace, then the trailing one. *)
Fixpoint drop_while (s : list C) : list C :=
  match s with
  | [] => []
  | c :: s' => if is_space c then drop_while s' else s
  end.

Definition strip (s : list C) : list C :=
  rev (drop_while (rev (drop_while s))).

(** [r] has no whitespace at either end. *)
Definition tight (r : list C) : Prop :=
  (forall c, hd_error r = Some c -> is_space c = false) /\
  (forall c, hd_error (rev r) = Some c -> is_space c = false).

(** [r] is [s] without its leading and trailing whitespace. *)
Definition trimmed_of (s r : list C) : Prop :=
  exists pre post,
    s = pre ++ r ++ post /\
    Forall (fun c => is_space c = true) pre /\
    Forall (fun c => is_space c = true) post /\
    tight r.

End basic_string.

(* ------------------------------------------------------------------------- *)
(** ** The platform: library functions the program calls *)

Class Platform := {
  (** [::towlower], through the [wint_t]/[wchar_t] casts of [tolower_w]. *)
  towlower : wchar_t -> wchar_t;
  iswspace : wchar_t -> bool;
  (** [std::tolower] on an [unsigned char], stored back into a [char]. *)
  tolower : char -> char;
  (** [isspace] on an [unsigned char]. *)
  isspace : char -> bool;
  (** [MultiByteToWideChar(CP_UTF8, 0, ...)]: the size query followed by the
      filling call; the returned count is the length of the result, [0]
      (the empty result) on failure. *)
  MultiByteToWideChar : cstring -> wstring;
  (** [WideCharToMultiByte(CP_UTF8, 0, ...)], likewise. *)
  WideCharToMultiByte : wstring -> cstring;
  (** [_popen(cmd, "r")]: [NULL], or the text the command writes. *)
  _popen : cstring -> option cstring
}.

(* ------------------------------------------------------------------------- *)
(** ** Objects in memory

    Strings reached through a reference or an iterator live in a store, so
    that the in-place [std::transform] of the two lowering steps is a write
    to an object and not a fresh value. *)

Section store.
Context {C : Type}.

Definition heap := list (list C).
Definition addr := nat.

Definition load (h : heap) (a : addr) : list C := nth a h [].

(** A new object, initialised by copy. *)
Definition alloc (h : heap) (v : list C) : heap * addr :=
  (h ++ [v], length h).

Fixpoint write_obj (h : heap) (a : addr) (v : list C) : heap :=
  match h, a with
  | [], _ => []
  | _ :: t, 0 => v :: t
  | x :: t, S a' => x :: write_obj t a' v
  end.

Fixpoint set_nth (s : list C) (i : nat) (c : C) : list C :=
  match s, i with
  | [], _ => []
  | _ :: t, 0 => c :: t
  | x :: t, S i' => x :: set_nth t i' c
  end.

(** [*it = c] for the iterator at index [i] of the object at [a]. *)
Definition store_char (h : heap) (a : addr) (i : nat) (c : C) : heap :=
  write_obj h a (set_nth (load h a) i c).

(** [std::transform(r.begin(), r.end(), r.begin(), f)]: [n] elements are
    left, the iterator is at index [i]. *)
Fixpoint transform_inplace (f : C -> C) (h : heap) (r : addr) (i n : nat)
  : heap :=
  match n with
  | 0 => h
  | S n' =>
      match nth_error (load h r) i with
      | Some c => transform_inplace f (store_char h r i (f c)) r (S i) n'
      | None => h
      end
  end.

(** Every object of [h] is still there, unchanged, in [h']. *)
Definition preserves (h h' : heap) : Prop :=
  length h <= length h' /\
  forall a, a < length h -> load h' a = load h a.

End store.

(* ------------------------------------------------------------------------- *)
(** ** The program *)

Definition newline : char := ascii_of_nat 10.
Definition nul : char := ascii_of_nat 0.
Definition colon : char := ascii_of_nat 58.
Definition dquote : char := ascii_of_nat 34.

(** [L"<keymaterial>"] and [L"</keymaterial>"]. *)
Definition tag1 : wstring := L "<keymaterial>".
Definition tag2 : wstring := L "</keymaterial>".

(** The two labels of [try_netsh_parse]; the second is the UTF-8 encoding
    of the Japanese label, as the source file holds it. *)
Definition label_en : cstring := lit "key content".
Definition label_ja : cstring :=
  map ascii_of_nat
    [227; 130; 173; 227; 131; 188; 32; 227; 130; 179; 227; 131; 179;
     227; 131; 134; 227; 131; 179; 227; 131; 132].

(** [fgets(buf, n, stream)] reads at most [n - 1] characters and stops after
    a newline; [fgets_read room stream] is the characters read and the rest
    of the stream. *)
Fixpoint fgets_read (room : nat) (stream : cstring) : cstring * cstring :=
  match room, stream with
  | S room', c :: rest =>
      if Ascii.eqb c newline then ([c], rest)
      else let (l, r) := fgets_read room' rest in (c :: l, r)
  | _, _ => ([], stream)
  end.

(** [NULL] at end of file, otherwise the characters stored in [buf] (before
    the terminating NUL) and the rest of the stream. *)
Definition fgets (n : nat) (stream : cstring) : option (cstring * cstring) :=
  match stream with
  | [] => None
  | _ :: _ => Some (fgets_read (n - 1) stream)
  end.

(** [std::string line(buf)]: the characters of [buf] up to the first NUL. *)
Fixpoint c_str (buf : cstring) : cstring :=
  match buf with
  | [] => []
  | c :: buf' => if Ascii.eqb c nul then [] else c :: c_str buf'
  end.

(** How one iteration of the [while (fgets ...)] loop ends. *)
Inductive step : Type :=
| Break (found : wstring)
| Continue.

(** The verdict of the per-profile code of [wmain]. *)
Inductive report : Type :=
| Pass (password : wstring)
| NotAvailable.

(** The calls the per-profile code makes. *)
Inductive call : Type :=
| CallExtractKeyMaterial
| CallNetshParse.

Section program.
Context {P : Platform}.

Definition trim_w (s : wstring) : res wstring := trim_with iswspace s.

Definition tolower_w (s : wstring) : wstring := map towlower s.

(** [extractKeyMaterial] once [low] is computed. *)
Definition extract_body (xml low : wstring) : res wstring :=
  match find low tag1 0 with
  | None => Ok []
  | Some p1 =>
      let p1 := p1 + length tag1 in
      match find low tag2 p1 with
      | None => Ok []
      | Some p2 =>
          sub <- substr xml p1 (p2 - p1) ;;
          trim_w sub
      end
  end.

Definition extractKeyMaterial (xml : wstring) : res wstring :=
  let low := tolower_w xml in
  extract_body xml low.

Definition wide_to_utf8 (w : wstring) : cstring :=
  match w with
  | [] => []
  | _ :: _ => WideCharToMultiByte w
  end.

(** [pos] of the loop body: the English label first, the Japanese one
    only when the English one is not in the line. *)
Definition label_pos (low : cstring) : option nat :=
  match find low label_en 0 with
  | Some pos => Some pos
  | None => find low label_ja 0
  end.

(** The loop body once [line] and [low] are built; [found] is the local
    of that name. *)
Definition line_body (line low : cstring) (found : wstring) : res step :=
  match label_pos low with
  | None => Ok Continue
  | Some pos =>
      match find_char line colon pos with
      | None => Ok Continue
      | Some col =>
          if col + 1 <? length line then
            val <- substr_from line (col + 1) ;;
            trimmed <- trim_with isspace val ;;
            let wout := MultiByteToWideChar trimmed in
            if 0 <? length wout then
              found' <- trim_w wout ;;
              Ok (Break found')
            else Ok (Break found)
          else Ok Continue
      end
  end.

Definition scan_line (line : cstring) (found : wstring) : res step :=
  let low := map tolower line in
  line_body line low found.

(** The [while (fgets(buf, sizeof(buf), pipe))] loop, [buf] being 512
    bytes. *)
Fixpoint read_loop (fuel : nat) (pipe : cstring) (found : wstring)
  : res wstring :=
  match fuel with
  | 0 => Raise out_of_fuel
  | S fuel' =>
      match fgets 512 pipe with
      | None => Ok found
      | Some (buf, pipe') =>
          st <- scan_line (c_str buf) found ;;
          match st with
          | Break found' => Ok found'
          | Continue => read_loop fuel' pipe' found
          end
      end
  end.

(** The fallback extractor on the text netsh wrote: every iteration
    consumes at least one byte, so [S (length pipe)] iterations are
    enough. *)
Definition parse_netsh_output (pipe : cstring) : res wstring :=
  read_loop (S (length pipe)) pipe [].

Definition netsh_command (profileName : wstring) : cstring :=
  lit "netsh wlan show profile name=" ++ [dquote]
    ++ wide_to_utf8 profileName ++ [dquote] ++ lit " key=clear 2>&1".

Definition try_netsh_parse (profileName : wstring) : res wstring :=
  match _popen (netsh_command profileName) with
  | None => Ok []
  | Some pipe => parse_netsh_output pipe
  end.

(** The body of the profile loop of [wmain], from [std::wstring password]
    to the printed verdict.  [descriptor] is [Some xml] when
    [WlanGetProfile] succeeded with a non-null document.  The result is
    the list of extractor calls made, in order, and the verdict. *)
Definition resolve_password (descriptor : option wstring)
    (profileName : wstring) : res (list call * report) :=
  st1 <- match descriptor with
         | Some xml =>
             password <- extractKeyMaterial xml ;;
             Ok ([CallExtractKeyMaterial], password)
         | None => Ok ([], [])
         end ;;
  let '(calls1, password1) := st1 in
  st2 <- match password1 with
         | [] =>
             password <- try_netsh_parse profileName ;;
             Ok (calls1 ++ [CallNetshParse], password)
         | _ :: _ => Ok (calls1, password1)
         end ;;
  let '(calls2, password2) := st2 in
  match password2 with
  | _ :: _ => Ok (calls2, Pass password2)
  | [] => Ok (calls2, NotAvailable)
  end.

End program.

(* ------------------------------------------------------------------------- *)
(** ** The program on objects in memory

    The same two extractors with the strings they reach by reference held
    in a store: the input is the object at an address, [tolower_w] and the
    lowering of [try_netsh_parse] copy it into a new object and transform
    that object in place. *)

Section program_in_store.
Context {P : Platform}.

(** [std::wstring r = s; std::transform(r.begin(), r.end(), r.begin(), ...);
    return r;] *)
Definition tolower_w_st (h : heap) (s : addr) : heap * addr :=
  let (h1, r) := alloc h (load h s) in
  (transform_inplace towlower h1 r 0 (length (load h1 r)), r).

Definition extractKeyMaterial_st (h : heap) (xml : addr)
  : heap * res wstring :=
  let (h1, low) := tolower_w_st h xml in
  (h1, extract_body (load h1 xml) (load h1 low)).

(** One turn of the loop up to the lowering: [fgets] has filled [buf]
    with [rd] and a NUL; [std::string line(buf); std::string low = line;
    std::transform(low.begin(), low.end(), low.begin(), ...)].  The
    result is the store and the addresses of [line] and [low]. *)
Definition line_objects (h : heap) (buf : addr) (rd : cstring)
  : heap * addr * addr :=
  let h1 := write_obj h buf (rd ++ [nul]) in
  let (h2, line) := alloc h1 (c_str (load h1 buf)) in
  let (h3, low) := alloc h2 (load h2 line) in
  (transform_inplace tolower h3 low 0 (length (load h3 low)), line, low).

(** The read loop: [text] is what the pipe delivers and [pos] the read
    position of the stream, [buf] the 512-byte array [fgets] fills. *)
Fixpoint read_loop_st (fuel : nat) (h : heap) (text : addr) (pos : nat)
    (buf : addr) (found : wstring) : heap * res wstring :=
  match fuel with
  | 0 => (h, Raise out_of_fuel)
  | S fuel' =>
      match fgets 512 (skipn pos (load h text)) with
      | None => (h, Ok found)
      | Some (rd, _) =>
          let '(h4, line, low) := line_objects h buf rd in
          match line_body (load h4 line) (load h4 low) found with
          | Raise e => (h4, Raise e)
          | Ok (Break found') => (h4, Ok found')
          | Ok Continue =>
              read_loop_st fuel' h4 text (pos + length rd) buf found
          end
      end
  end.

Definition parse_netsh_output_st (h : heap) (text buf : addr)
  : heap * res wstring :=
  read_loop_st (S (length (load h text))) h text 0 buf [].

End program_in_store.

(* ------------------------------------------------------------------------- *)
(** ** A reference platform: the "C" locale on ASCII

    Used to state what the scenarios of the specification assume of the
    platform, and as the instance at which the theorems are exercised. *)

Definition c_towlower (c : wchar_t) : wchar_t :=
  if ((65 <=? c) && (c <=? 90))%N then (c + 32)%N else c.

Definition c_iswspace (c : wchar_t) : bool :=
  ((c =? 32) || ((9 <=? c) && (c <=? 13)))%N.

Definition c_tolower (c : char) : char := ascii_of_N (c_towlower (N_of_ascii c)).

Definition c_isspace (c : char) : bool := c_iswspace (N_of_ascii c).

Definition is_ascii (c : char) : bool := (N_of_ascii c <? 128)%N.

Definition is_wascii (c : wchar_t) : bool := (c <? 128)%N.

(** Conversions that are exact on ASCII and replace everything else. *)
Definition ascii_to_wide (s : cstring) : wstring :=
  map (fun c => if is_ascii c then N_of_ascii c else 65533%N) s.

Definition wide_to_ascii (w : wstring) : cstring :=
  map (fun c => if is_wascii c then ascii_of_N c else ascii_of_nat 63) w.

Definition c_locale (popen : cstring -> option cstring) : Platform :=
  {| towlower := c_towlower;
     iswspace := c_iswspace;
     tolower := c_tolower;
     isspace := c_isspace;
     MultiByteToWideChar := ascii_to_wide;
     WideCharToMultiByte := wide_to_ascii;
     _popen := popen |}.

(** No command can be run. *)
Definition no_popen : cstring -> option cstring := fun _ => None.

(** Every command writes [out]. *)
Definition popen_const (out : cstring) : cstring -> option cstring :=
  fun _ => Some out.

(** A platform that treats ASCII as the "C" locale does. *)
Record ascii_conformant (P : Platform) : Prop := {
  towlower_ascii : forall c, is_wascii c = true -> towlower c = c_towlower c;
  iswspace_ascii : forall c, is_wascii c = true -> iswspace c = c_iswspace c;
  tolower_ascii : forall c, is_ascii c = true -> tolower c = c_tolower c;
  isspace_ascii : forall c, is_ascii c = true -> isspace c = c_isspace c;
  mb2wc_ascii : forall s, forallb is_ascii s = true ->
                          MultiByteToWideChar s = map N_of_ascii s
}.

(* ------------------------------------------------------------------------- *)
(** ** Vocabulary of the specification *)

(** The characters of [s] from position [i] up to, not including, [j]. *)
Definition slice {C : Type} (s : list C) (i j : nat) : list C :=
  firstn (j - i) (skipn i s).

(** [result] is a value, and that value is [s] trimmed. *)
Definition returns_trimmed {C : Type} (is_space : C -> bool)
    (result : res (list C)) (s : list C) : Prop :=
  exists r, result = Ok r /\ trimmed_of is_space s r.

Section vocabulary.
Context {P : Platform}.

(** The document contains the opening (closing) marker at position [i],
    whatever the case of its letters. *)
Definition opening_at (xml : wstring) (i : nat) : Prop :=
  occurs_at tag1 (tolower_w xml) i.

Definition closing_at (xml : wstring) (j : nat) : Prop :=
  occurs_at tag2 (tolower_w xml) j.

(** The line contains one of the two labels, whatever the case. *)
Definition has_primary (line : cstring) : Prop :=
  exists i, occurs_at label_en (map tolower line) i.

Definition has_localized (line : cstring) : Prop :=
  exists i, occurs_at label_ja (map tolower line) i.

Definition has_label (line : cstring) : Prop :=
  has_primary line \/ has_localized line.

(** [col] is the first colon of [line] at or after [pos], and it is not
    the last character; [V] is everything after it. *)
Definition value_after (line : cstring) (pos : nat) (V : cstring) : Prop :=
  exists col, first_at [colon] line pos col /\
              col + 1 < length line /\
              V = skipn (col + 1) line.

(** The position the colon search starts from: the first occurrence of
    the primary label, or of the localized one in a line without the
    primary label. *)
Definition label_start (line : cstring) (pos : nat) : Prop :=
  first_at label_en (map tolower line) 0 pos \/
  (absent_from label_en (map tolower line) 0 /\
   first_at label_ja (map tolower line) 0 pos).

(** The line holds a label and, from the label on, a colon followed by
    the text [V]. *)
Definition line_yields (line : cstring) (V : cstring) : Prop :=
  exists pos, label_start line pos /\ value_after line pos V.

(** What the program makes of the text after the colon: trimmed as
    bytes, converted, trimmed again as wide characters. *)
Definition value_of (V : cstring) : wstring :=
  strip iswspace (MultiByteToWideChar (strip isspace V)).

(** The lines in the order [fgets] delivers them: each is the text up to
    and including the next newline, cut after 511 bytes when the newline
    is farther away, and cut at a NUL byte if it holds one. *)
Fixpoint records (fuel : nat) (pipe : cstring) : list cstring :=
  match fuel with
  | 0 => []
  | S fuel' =>
      match fgets 512 pipe with
      | None => []
      | Some (buf, pipe') => c_str buf :: records fuel' pipe'
      end
  end.

Definition lines_read (pipe : cstring) : list cstring :=
  records (length pipe) pipe.

(** A line of ordinary report text, without its newline: no newline and
    no NUL inside, and short enough for the buffer. *)
Definition plain_line (l : cstring) : Prop :=
  ~ In newline l /\ ~ In nul l /\ length l < 511.

(** The text made of the given lines, each ended by a newline. *)
Definition unlines (ls : list cstring) : cstring :=
  concat (map (fun l => l ++ [newline]) ls).

(** The loop body applied to the lines in order, up to the first
    [break]. *)
Fixpoint scan_lines (lines : list cstring) (found : wstring) : res wstring :=
  match lines with
  | [] => Ok found
  | line :: rest =>
      st <- scan_line line found ;;
      match st with
      | Break found' => Ok found'
      | Continue => scan_lines rest found
      end
  end.

End vocabulary.

(* ------------------------------------------------------------------------- *)
(** ** The rest of [wmain]: the WLAN API and the interface and profile loops

    The WLAN calls are the data they return: a return code and the pointer
    the call stored ([None] for [NULL]).  What the program writes and which
    resources it releases is a list of events, in order. *)

Definition DWORD := N.
Definition ERROR_SUCCESS : DWORD := 0%N.

(** One entry of [pProfileList->ProfileInfo], with what [WlanGetProfile]
    returns for it: the return code and [pProfileXml]. *)
Record profile_info : Type := {
  strProfileName : wstring;
  WlanGetProfile : DWORD * option wstring
}.

(** One entry of [pIfList->InterfaceInfo], with what [WlanGetProfileList]
    returns for it: the return code and [pProfileList]. *)
Record interface_info : Type := {
  strInterfaceDescription : wstring;
  WlanGetProfileList : DWORD * option (list profile_info)
}.

(** The return code of [WlanOpenHandle], and the return code and [pIfList]
    of [WlanEnumInterfaces]. *)
Record wlan : Type := {
  WlanOpenHandle : DWORD;
  WlanEnumInterfaces : DWORD * option (list interface_info)
}.

(** The memory the program hands to [WlanFreeMemory]: the interface list,
    the profile list of interface [i], the document of profile [j] of
    interface [i]. *)
Inductive block : Type :=
| BlkInterfaceList
| BlkProfileList (i : nat)
| BlkProfileXml (i j : nat).

Inductive event : Type :=
| OutInterface (name : wstring)
| OutProfile (name : wstring)
| OutSsid (name : wstring)
| OutPass (password : wstring)
| OutNotAvailable
| ErrOpenHandle (ret : DWORD)
| ErrEnumInterfaces (ret : DWORD)
| ErrGetProfileList (ret : DWORD)
| FreeMemory (b : block)
| CloseHandle
| Pause.

Definition wnl : wstring := [10%N].

(** The text an output event puts on [std::wcout]. *)
Definition wcout_text (e : event) : option wstring :=
  match e with
  | OutInterface name => Some (L "---- Interface: " ++ name ++ L " ----" ++ wnl)
  | OutProfile name => Some (L "Profile: " ++ name ++ wnl)
  | OutSsid name => Some (L "  SSID: " ++ name ++ wnl)
  | OutPass password => Some (L "  PASS: " ++ password ++ wnl)
  | OutNotAvailable =>
      Some (L "  PASS: (not available / permission denied)" ++ wnl)
  | _ => None
  end.

(** The message and the number an error event puts on [std::wcerr]. *)
Definition wcerr_text (e : event) : option (wstring * DWORD) :=
  match e with
  | ErrOpenHandle ret => Some (L "WlanOpenHandle failed: ", ret)
  | ErrEnumInterfaces ret => Some (L "WlanEnumInterfaces failed: ", ret)
  | ErrGetProfileList ret => Some (L "  WlanGetProfileList failed: ", ret)
  | _ => None
  end.

(** [ret == ERROR_SUCCESS && pProfileXml != NULL]: the document the
    extractor is given. *)
Definition descriptor_of (got : DWORD * option wstring) : option wstring :=
  match got with
  | (ret, Some xml) => if (ret =? ERROR_SUCCESS)%N then Some xml else None
  | (_, None) => None
  end.

(** [ret != ERROR_SUCCESS || pProfileList == NULL] negated: the profiles
    the inner loop visits. *)
Definition profiles_of (got : DWORD * option (list profile_info))
  : option (list profile_info) :=
  match got with
  | (ret, Some ps) => if (ret =? ERROR_SUCCESS)%N then Some ps else None
  | (_, None) => None
  end.

Definition verdict_event (r : report) : event :=
  match r with
  | Pass password => OutPass password
  | NotAvailable => OutNotAvailable
  end.

Definition is_header (e : event) : bool :=
  match e with OutInterface _ => true | _ => false end.

Definition is_verdict (e : event) : bool :=
  match e with OutPass _ | OutNotAvailable => true | _ => false end.

Definition is_close (e : event) : bool :=
  match e with CloseHandle => true | _ => false end.

Definition is_pause (e : event) : bool :=
  match e with Pause => true | _ => false end.

(** The blocks released, in order. *)
Fixpoint freed (evs : list event) : list block :=
  match evs with
  | [] => []
  | FreeMemory b :: evs' => b :: freed evs'
  | _ :: evs' => freed evs'
  end.

Section wmain.
Context {P : Platform}.

(** The body of the profile loop for profile [j] of interface [i]. *)
Definition profile_events (i j : nat) (p : profile_info) : res (list event) :=
  let profileName := strProfileName p in
  let descriptor := descriptor_of (WlanGetProfile p) in
  st <- resolve_password descriptor profileName ;;
  let '(_, verdict) := st in
  Ok ([OutProfile profileName]
        ++ match descriptor with
           | Some _ => [FreeMemory (BlkProfileXml i j)]
           | None => []
           end
        ++ [OutSsid profileName; verdict_event verdict]).

(** [for (unsigned int j = ...; j < dwNumberOfItems; ++j)], from [j] on. *)
Fixpoint profile_loop (i j : nat) (ps : list profile_info)
  : res (list event) :=
  match ps with
  | [] => Ok []
  | p :: ps' =>
      ev <- profile_events i j p ;;
      rest <- profile_loop i (S j) ps' ;;
      Ok (ev ++ rest)
  end.

(** The body of the interface loop for interface [i]. *)
Definition interface_events (i : nat) (iface : interface_info)
  : res (list event) :=
  let header := OutInterface (strInterfaceDescription iface) in
  match profiles_of (WlanGetProfileList iface) with
  | None => Ok [header; ErrGetProfileList (fst (WlanGetProfileList iface))]
  | Some ps =>
      ev <- profile_loop i 0 ps ;;
      Ok (header :: ev ++ [FreeMemory (BlkProfileList i)])
  end.

Fixpoint interface_loop (i : nat) (ifs : list interface_info)
  : res (list event) :=
  match ifs with
  | [] => Ok []
  | iface :: ifs' =>
      ev <- interface_events i iface ;;
      rest <- interface_loop (S i) ifs' ;;
      Ok (ev ++ rest)
  end.

(** [wmain]: the events and the exit code. *)
Definition wmain (w : wlan) : res (list event * nat) :=
  if negb (WlanOpenHandle w =? ERROR_SUCCESS)%N then
    Ok ([ErrOpenHandle (WlanOpenHandle w)], 1)
  else
    match WlanEnumInterfaces w with
    | (ret, None) => Ok ([ErrEnumInterfaces ret; CloseHandle], 2)
    | (ret, Some ifs) =>
        if negb (ret =? ERROR_SUCCESS)%N then
          Ok ([ErrEnumInterfaces ret; FreeMemory BlkInterfaceList; CloseHandle],
              2)
        else
          ev <- interface_loop 0 ifs ;;
          Ok (ev ++ [FreeMemory BlkInterfaceList; CloseHandle; Pause], 0)
    end.

(** The profiles the inner loop visits for an interface: none when its
    list could not be had. *)
Definition listed (iface : interface_info) : list profile_info :=
  match profiles_of (WlanGetProfileList iface) with
  | Some ps => ps
  | None => []
  end.

(** [e] is the verdict line of profile [p]. *)
Definition verdict_of (p : profile_info) (e : event) : Prop :=
  exists calls r,
    resolve_password (descriptor_of (WlanGetProfile p)) (strProfileName p)
    = Ok (calls, r) /\
    e = verdict_event r.

(** The document of profile [j] of interface [i] was obtained. *)
Definition has_descriptor (ifs : list interface_info) (i j : nat) : Prop :=
  exists iface ps p xml,
    nth_error ifs i = Some iface /\
    profiles_of (WlanGetProfileList iface) = Some ps /\
    nth_error ps j = Some p /\
    descriptor_of (WlanGetProfile p) = Some xml.

(** The profile list of interface [i] was obtained. *)
Definition has_profile_list (ifs : list interface_info) (i : nat) : Prop :=
  exists iface ps,
    nth_error ifs i = Some iface /\
    profiles_of (WlanGetProfileList iface) = Some ps.

End wmain.

(** A host with two adapters, used to exercise the theorems about
    [wmain]: the profile list of the first cannot be had (access denied);
    the second has a profile whose document holds the key and one whose
    document cannot be had. *)
Definition example_host : wlan :=
  {| WlanOpenHandle := ERROR_SUCCESS;
     WlanEnumInterfaces :=
       (ERROR_SUCCESS,
        Some [ {| strInterfaceDescription := L "Wi-Fi 1";
                  WlanGetProfileList := (5%N, None) |};
               {| strInterfaceDescription := L "Wi-Fi 2";
                  WlanGetProfileList :=
                    (ERROR_SUCCESS,
                     Some [ {| strProfileName := L "Home";
                               WlanGetProfile :=
                                 (ERROR_SUCCESS,
                                  Some (L "<keyMaterial>pw1</keyMaterial>")) |};
                            {| strProfileName := L "Cafe";
                               WlanGetProfile := (5%N, None) |} ]) |} ]) |}.

(** A newline, if the line has one, is its last character. *)
Definition newline_only_last (l : cstring) : Prop :=
  forall i, nth_error l i = Some newline -> S i = length l.

(* ========================================================================= *)
(** * Properties *)

Unset Implicit Arguments.

(* ------------------------------------------------------------------------- *)
(** ** [find] returns the first occurrence *)

Section find_facts.
Context {C : Type} `{CharT C}.

Lemma prefix_at_iff (needle s : list C) :
  prefix_at needle s = true <->
  length needle <= length s /\ firstn (length needle) s = needle.
Proof.
  revert s; induction needle as [|x needle IH]; intros s; simpl.
  - split; [intros _; split; [lia | reflexivity] | reflexivity].
  - destruct s as [|y s]; simpl.
    + split; [discriminate | intros [Hle _]; lia].
    + rewrite andb_true_iff, IH.
      destruct (ch_eqb_spec x y) as [->|Hne].
      * split.
        -- intros [_ [Hle Hf]]; split; [lia | now rewrite Hf].
        -- intros [Hle Hf]; injection Hf as Hf.
           repeat split; [lia | exact Hf].
      * split; [intros [Hd _]; discriminate|].
        intros [_ Hf]; injection Hf as Hxy _; congruence.
Qed.

Lemma occurs_at_prefix (needle s : list C) (i : nat) :
  occurs_at needle s i <->
  i <= length s /\ prefix_at needle (skipn i s) = true.
Proof.
  unfold occurs_at; rewrite prefix_at_iff, length_skipn.
  split; intros H0; repeat split; try tauto; lia.
Qed.

Lemma find_in_Some (needle s : list C) (k i : nat) :
  find_in needle s k = Some i <->
  exists d, i = k + d /\ d <= length s /\
            prefix_at needle (skipn d s) = true /\
            forall e, e < d -> prefix_at needle (skipn e s) = false.
Proof.
  revert k; induction s as [|y s IH]; intros k.
  - cbn [find_in]. destruct (prefix_at needle []) eqn:Hp.
    + split.
      * intros [= <-]; exists 0; repeat split; auto with arith; lia.
      * intros [d (-> & Hd & _ & _)]. cbn in Hd.
        replace d with 0 by lia. now rewrite Nat.add_0_r.
    + split; [discriminate|].
      intros [d (_ & Hd & Hpd & _)]. cbn in Hd.
      replace d with 0 in Hpd by lia. cbn in Hpd; congruence.
  - cbn [find_in]. destruct (prefix_at needle (y :: s)) eqn:Hp.
    + split.
      * intros [= <-]; exists 0; repeat split; auto with arith; lia.
      * intros [d (-> & _ & _ & Hmin)].
        destruct d as [|d]; [now rewrite Nat.add_0_r|].
        specialize (Hmin 0 (Nat.lt_0_succ _)). cbn in Hmin; congruence.
    + rewrite IH. split.
      * intros [d (-> & Hd & Hpd & Hmin)].
        exists (S d); repeat split; cbn [length skipn]; try lia; auto.
        intros [|e] He; cbn [skipn]; [exact Hp | apply Hmin; lia].
      * intros [d (-> & Hd & Hpd & Hmin)].
        destruct d as [|d]; [cbn in Hpd; congruence|].
        exists d; repeat split; cbn [length] in Hd; try lia; auto.
        intros e He. apply (Hmin (S e)); lia.
Qed.

Lemma find_in_None (needle s : list C) (k : nat) :
  find_in needle s k = None <->
  forall d, d <= length s -> prefix_at needle (skipn d s) = false.
Proof.
  revert k; induction s as [|y s IH]; intros k; cbn [find_in].
  - destruct (prefix_at needle []) eqn:Hp.
    + split; [discriminate|]. intros Hall.
      specialize (Hall 0 (Nat.le_refl _)). cbn in Hall; congruence.
    + split; [|reflexivity]. intros _ d Hd. cbn in Hd.
      replace d with 0 by lia. exact Hp.
  - destruct (prefix_at needle (y :: s)) eqn:Hp.
    + split; [discriminate|]. intros Hall.
      specialize (Hall 0 (Nat.le_0_l _)). cbn in Hall; congruence.
    + rewrite IH. split.
      * intros Hall [|d] Hd; cbn [skipn]; [exact Hp|].
        apply Hall. cbn in Hd; lia.
      * intros Hall d Hd. apply (Hall (S d)). cbn; lia.
Qed.

Lemma find_Some_iff (s needle : list C) (pos i : nat) :
  find s needle pos = Some i <-> first_at needle s pos i.
Proof.
  unfold find, first_at.
  destruct (Nat.leb_spec pos (length s)) as [Hle|Hgt].
  - rewrite find_in_Some. split.
    + intros [d (-> & Hd & Hpd & Hmin)].
      rewrite length_skipn in Hd. rewrite skipn_skipn in Hpd.
      split; [lia|]. split.
      * apply occurs_at_prefix. rewrite Nat.add_comm. split; [lia | exact Hpd].
      * intros j Hj Hocc. apply occurs_at_prefix in Hocc as [_ Hocc].
        specialize (Hmin (j - pos)). rewrite skipn_skipn in Hmin.
        replace (j - pos + pos) with j in Hmin by lia.
        rewrite Hmin in Hocc by lia. discriminate.
    + intros (Hpi & Hocc & Hmin).
      apply occurs_at_prefix in Hocc as [Hi Hocc].
      exists (i - pos). rewrite length_skipn, skipn_skipn.
      replace (i - pos + pos) with i by lia.
      repeat split; try lia; auto.
      intros e He. rewrite skipn_skipn.
      destruct (prefix_at needle (skipn (e + pos) s)) eqn:Hp; [|reflexivity].
      exfalso. apply (Hmin (e + pos)); [lia|].
      apply occurs_at_prefix. split; [lia | exact Hp].
  - split; [discriminate|].
    intros (Hpi & [Hb _] & _). lia.
Qed.

Lemma find_None_iff (s needle : list C) (pos : nat) :
  find s needle pos = None <-> absent_from needle s pos.
Proof.
  unfold find, absent_from.
  destruct (Nat.leb_spec pos (length s)) as [Hle|Hgt].
  - rewrite find_in_None. split.
    + intros Hall j Hj Hocc. apply occurs_at_prefix in Hocc as [Hjl Hocc].
      specialize (Hall (j - pos)). rewrite skipn_skipn, length_skipn in Hall.
      replace (j - pos + pos) with j in Hall by lia.
      rewrite Hall in Hocc by lia. discriminate.
    + intros Hall d Hd. rewrite length_skipn in Hd. rewrite skipn_skipn.
      destruct (prefix_at needle (skipn (d + pos) s)) eqn:Hp; [|reflexivity].
      exfalso. apply (Hall (d + pos)); [lia|].
      apply occurs_at_prefix. split; [lia | exact Hp].
  - split; [|reflexivity].
    intros _ j Hj [Hb _]. lia.
Qed.

(** A found position leaves room for the whole needle. *)
Lemma find_bound (s needle : list C) (pos i : nat) :
  find s needle pos = Some i -> pos <= i /\ i + length needle <= length s.
Proof.
  intros Hf. apply find_Some_iff in Hf as (Hp & [Hb _] & _). lia.
Qed.

Lemma first_at_unique (needle s : list C) (pos i j : nat) :
  first_at needle s pos i -> first_at needle s pos j -> i = j.
Proof.
  intros Hi Hj. apply find_Some_iff in Hi, Hj. congruence.
Qed.

(** An occurrence at or after [pos] makes [find] succeed. *)
Lemma find_exists (s needle : list C) (pos j : nat) :
  pos <= j -> occurs_at needle s j ->
  exists i, find s needle pos = Some i /\ i <= j.
Proof.
  intros Hj Hocc. destruct (find s needle pos) as [i|] eqn:Hf.
  - exists i; split; [reflexivity|].
    apply find_Some_iff in Hf as (_ & _ & Hmin).
    destruct (Nat.le_gt_cases i j) as [Hle|Hgt]; [exact Hle|].
    exfalso. apply (Hmin j); [lia | exact Hocc].
  - apply find_None_iff in Hf. exfalso. exact (Hf j Hj Hocc).
Qed.

End find_facts.

(* ------------------------------------------------------------------------- *)
(** ** The trimming loops remove exactly the surrounding whitespace *)

Section trim_facts.
Context {C : Type} `{CharT C}.
Variable is_space : C -> bool.

Local Abbreviation spaces := (Forall (fun c => is_space c = true)).

Lemma skip_front_spec (s : list C) (a : nat) :
  a <= skip_front is_space s a <= a + length s /\
  skipn (skip_front is_space s a - a) s = drop_while is_space s.
Proof.
  revert a; induction s as [|c s IH]; intros a; simpl.
  - split; [lia | now rewrite skipn_nil].
  - destruct (is_space c).
    + destruct (IH (S a)) as [Hb Hs]. split; [lia|].
      replace (skip_front is_space s (S a) - a)
        with (S (skip_front is_space s (S a) - S a)) by lia.
      exact Hs.
    + split; [lia|]. now rewrite Nat.sub_diag.
Qed.

Lemma firstn_snoc (l : list C) (n : nat) (c : C) :
  nth_error l n = Some c -> firstn (S n) l = firstn n l ++ [c].
Proof.
  revert n; induction l as [|x l IH]; intros [|n] Hn; simpl in *;
    try discriminate.
  - now injection Hn as ->.
  - now rewrite (IH n Hn).
Qed.

(** The slice [s[a..b)] the second loop narrows from the right. *)
Lemma skip_back_spec (s : list C) (a b : nat) :
  a <= b <= length s ->
  a <= skip_back is_space s a b <= b /\
  firstn (skip_back is_space s a b - a) (skipn a s) =
  rev (drop_while is_space (rev (firstn (b - a) (skipn a s)))).
Proof.
  induction b as [|b IH]; intros Hab.
  - simpl. split; [lia | reflexivity].
  - cbn [skip_back]. unfold at_.
    destruct (Nat.ltb_spec a (S b)) as [Hlt|Hge]; cbn [andb].
    + destruct (nth_error s b) as [c|] eqn:Hc.
      2:{ apply nth_error_None in Hc. lia. }
      assert (Hsl : firstn (S b - a) (skipn a s)
                    = firstn (b - a) (skipn a s) ++ [c]).
      { replace (S b - a) with (S (b - a)) by lia.
        apply firstn_snoc. rewrite nth_error_skipn.
        now replace (a + (b - a)) with b by lia. }
      rewrite Hsl, rev_app_distr. cbn [rev app drop_while].
      destruct (is_space c).
      * destruct IH as [Hb Hs]; [lia|]. split; [lia | exact Hs].
      * split; [lia|]. cbn [rev]. now rewrite rev_involutive.
    + assert (a = S b) by lia; subst a.
      rewrite Nat.sub_diag. cbn. split; [lia | reflexivity].
Qed.

(** The index loops compute [strip], and [substr] does not throw. *)
Lemma trim_with_strip (s : list C) :
  trim_with is_space s = Ok (strip is_space s).
Proof.
  unfold trim_with, strip, substr.
  destruct (skip_front_spec s 0) as [Ha Hs].
  rewrite Nat.sub_0_r in Hs. cbn [Nat.add] in Ha.
  set (a := skip_front is_space s 0) in *.
  destruct (skip_back_spec s a (length s)) as [Hb Hsl]; [lia|].
  destruct (Nat.leb_spec a (length s)) as [_|Hgt]; [|lia].
  rewrite Hsl. rewrite <- (length_skipn a s), firstn_all, Hs.
  reflexivity.
Qed.

Lemma drop_while_split (s : list C) :
  exists pre, s = pre ++ drop_while is_space s /\ spaces pre /\
              forall c, hd_error (drop_while is_space s) = Some c ->
                        is_space c = false.
Proof.
  induction s as [|c s (pre & Hs & Hpre & Hhd)]; simpl.
  - exists []; repeat split; [constructor | discriminate].
  - destruct (is_space c) eqn:Hc.
    + exists (c :: pre); repeat split; auto.
      simpl; now rewrite <- Hs.
    + exists []; repeat split; [constructor|].
      intros c' [= <-]; exact Hc.
Qed.

Lemma drop_while_spaces (pre t : list C) :
  spaces pre -> drop_while is_space (pre ++ t) = drop_while is_space t.
Proof.
  induction 1 as [|c pre Hc _ IH]; simpl; [reflexivity|].
  now rewrite Hc.
Qed.

Lemma drop_while_kept (t : list C) :
  (forall c, hd_error t = Some c -> is_space c = false) ->
  drop_while is_space t = t.
Proof.
  destruct t as [|c t]; simpl; [reflexivity|].
  intros Hhd. now rewrite (Hhd c eq_refl).
Qed.

Lemma strip_trimmed_of (s : list C) : trimmed_of is_space s (strip is_space s).
Proof.
  unfold strip.
  destruct (drop_while_split s) as (pre & Hs & Hpre & Hhd).
  destruct (drop_while_split (rev (drop_while is_space s)))
    as (tsop & Hr & Hpost & Hlast).
  exists pre, (rev tsop). repeat split.
  - rewrite <- rev_app_distr, <- Hr, rev_involutive. exact Hs.
  - exact Hpre.
  - apply Forall_rev; exact Hpost.
  - intros c Hc. apply Hhd.
    set (u := drop_while is_space (rev (drop_while is_space s))) in *.
    assert (Hd : drop_while is_space s = rev u ++ rev tsop).
    { rewrite <- rev_app_distr, <- Hr. now rewrite rev_involutive. }
    rewrite Hd. destruct (rev u); [discriminate | exact Hc].
  - rewrite rev_involutive. exact Hlast.
Qed.

Lemma trimmed_of_unique (s r : list C) :
  trimmed_of is_space s r -> r = strip is_space s.
Proof.
  intros (pre & post & -> & Hpre & Hpost & Hhd & Hlast).
  unfold strip. rewrite drop_while_spaces by exact Hpre.
  destruct r as [|c r].
  - cbn [app].
    rewrite <- (app_nil_r post) at 1.
    rewrite drop_while_spaces by exact Hpost. cbn.
    reflexivity.
  - rewrite (drop_while_kept ((c :: r) ++ post))
      by (intros c' Hc'; apply Hhd; exact Hc').
    rewrite rev_app_distr.
    rewrite drop_while_spaces by (apply Forall_rev; exact Hpost).
    rewrite (drop_while_kept (rev (c :: r))) by exact Hlast.
    now rewrite rev_involutive.
Qed.

Lemma strip_tight (s : list C) : tight is_space (strip is_space s).
Proof.
  destruct (strip_trimmed_of s) as (_ & _ & _ & _ & _ & Ht). exact Ht.
Qed.

Lemma tight_strip (r : list C) : tight is_space r -> strip is_space r = r.
Proof.
  intros Ht. symmetry. apply trimmed_of_unique.
  exists [], []. rewrite app_nil_r. repeat split; auto; apply Ht.
Qed.

Lemma strip_idempotent (s : list C) :
  strip is_space (strip is_space s) = strip is_space s.
Proof. apply tight_strip, strip_tight. Qed.

Lemma strip_incl (s : list C) (c : C) :
  In c (strip is_space s) -> In c s.
Proof.
  destruct (strip_trimmed_of s) as (pre & post & Hs & _).
  intros Hin. rewrite Hs. apply in_or_app; right.
  apply in_or_app; left. exact Hin.
Qed.

Lemma strip_nil : strip is_space [] = [].
Proof. reflexivity. Qed.

End trim_facts.

Section trim_ext.
Context {C : Type} `{CharT C}.

Lemma drop_while_ext (f g : C -> bool) (s : list C) :
  (forall c, In c s -> f c = g c) -> drop_while f s = drop_while g s.
Proof.
  induction s as [|c s IH]; intros Hfg; simpl; [reflexivity|].
  rewrite <- (Hfg c) by now left. destruct (f c); [|reflexivity].
  apply IH. intros c' Hc'. apply Hfg. now right.
Qed.

(** [strip] consults the classification only on characters of its
    argument. *)
Lemma strip_ext (f g : C -> bool) (s : list C) :
  (forall c, In c s -> f c = g c) -> strip f s = strip g s.
Proof.
  intros Hfg. unfold strip.
  rewrite (drop_while_ext f g s Hfg). f_equal.
  apply drop_while_ext. intros c Hc. apply Hfg.
  apply in_rev in Hc.
  destruct (drop_while_split g s) as (pre & Hs & _).
  rewrite Hs. apply in_or_app. now right.
Qed.

End trim_ext.

(* ------------------------------------------------------------------------- *)
(** ** The structured extractor *)

Section extract_facts.
Context {P : Platform}.

Lemma trim_w_strip (s : wstring) : trim_w s = Ok (strip iswspace s).
Proof. apply trim_with_strip. Qed.

Lemma length_tolower_w (s : wstring) : length (tolower_w s) = length s.
Proof. apply length_map. Qed.

(** The two positions are in order and inside the document, so [p1 +=
    tag1.size()] and [p2 - p1] do not wrap and [substr] does not throw. *)
Lemma extract_positions_ordered (xml : wstring) (p1 p2 : nat) :
  find (tolower_w xml) tag1 0 = Some p1 ->
  find (tolower_w xml) tag2 (p1 + length tag1) = Some p2 ->
  p1 + length tag1 <= p2 /\ p2 + length tag2 <= length xml.
Proof.
  intros H1 H2. apply find_bound in H1, H2.
  rewrite length_tolower_w in *. lia.
Qed.

Lemma extract_found (xml : wstring) (p1 p2 : nat) :
  first_at tag1 (tolower_w xml) 0 p1 ->
  first_at tag2 (tolower_w xml) (p1 + length tag1) p2 ->
  extractKeyMaterial xml
  = Ok (strip iswspace (slice xml (p1 + length tag1) p2)).
Proof.
  intros H1 H2. apply find_Some_iff in H1, H2.
  destruct (extract_positions_ordered xml p1 p2 H1 H2) as [Hle Hin].
  unfold extractKeyMaterial, extract_body. rewrite H1, H2.
  unfold substr.
  destruct (Nat.leb_spec (p1 + length tag1) (length xml)) as [_|Hgt]; [|lia].
  cbn [bind]. apply trim_w_strip.
Qed.

Lemma extract_no_opening (xml : wstring) :
  absent_from tag1 (tolower_w xml) 0 -> extractKeyMaterial xml = Ok [].
Proof.
  intros Ha. apply find_None_iff in Ha.
  unfold extractKeyMaterial, extract_body. now rewrite Ha.
Qed.

Lemma extract_no_closing (xml : wstring) (p1 : nat) :
  first_at tag1 (tolower_w xml) 0 p1 ->
  absent_from tag2 (tolower_w xml) (p1 + length tag1) ->
  extractKeyMaterial xml = Ok [].
Proof.
  intros H1 Ha. apply find_Some_iff in H1. apply find_None_iff in Ha.
  unfold extractKeyMaterial, extract_body. now rewrite H1, Ha.
Qed.

(** The extractor never throws, and what it returns is a trimmed text. *)
Lemma extract_total (xml : wstring) :
  exists s, extractKeyMaterial xml = Ok (strip iswspace s).
Proof.
  destruct (find (tolower_w xml) tag1 0) as [p1|] eqn:H1.
  - destruct (find (tolower_w xml) tag2 (p1 + length tag1)) as [p2|] eqn:H2.
    + eexists. apply extract_found; apply find_Some_iff; eassumption.
    + exists []. apply (extract_no_closing xml p1);
        [apply find_Some_iff | apply find_None_iff]; assumption.
  - exists []. apply extract_no_opening, find_None_iff; assumption.
Qed.

(** Occurrences inside [s] are the occurrences inside [s ++ rest] that
    end within [s]. *)
Lemma occurs_at_app {C : Type} (needle s rest : list C) (i : nat) :
  i + length needle <= length s ->
  (occurs_at needle (s ++ rest) i <-> occurs_at needle s i).
Proof.
  intros Hb. unfold occurs_at.
  rewrite skipn_app, firstn_app, length_skipn, length_app.
  replace (length needle - (length s - i)) with 0 by lia.
  cbn [firstn]. rewrite app_nil_r.
  split; intros [_ Hf]; (split; [lia | exact Hf]).
Qed.

Lemma first_at_app {C : Type} `{CharT C} (needle s rest : list C)
    (pos i : nat) :
  first_at needle s pos i -> first_at needle (s ++ rest) pos i.
Proof.
  intros (Hp & Hocc & Hmin). pose proof Hocc as [Hb _].
  repeat split; try apply Hp.
  - rewrite length_app; lia.
  - apply occurs_at_app; [exact Hb | apply Hocc].
  - intros j Hj Hoc. apply (Hmin j Hj).
    apply occurs_at_app in Hoc; [exact Hoc | lia].
Qed.

Lemma slice_app {C : Type} (s rest : list C) (i j : nat) :
  j <= length s -> slice (s ++ rest) i j = slice s i j.
Proof.
  intros Hj. unfold slice.
  rewrite skipn_app, firstn_app, length_skipn.
  replace (j - i - (length s - i)) with 0 by lia.
  cbn [firstn]. now rewrite app_nil_r.
Qed.

End extract_facts.

(* ------------------------------------------------------------------------- *)
(** ** Reading the pipe line by line *)

Section reading_facts.

Lemma fgets_read_split (room : nat) (stream l r : cstring) :
  fgets_read room stream = (l, r) -> stream = l ++ r.
Proof.
  revert stream l r; induction room as [|room IH]; intros stream l r.
  - destruct stream; cbn; intros [= <- <-]; reflexivity.
  - destruct stream as [|c rest]; cbn [fgets_read].
    + intros [= <- <-]; reflexivity.
    + destruct (Ascii.eqb c newline).
      * intros [= <- <-]; reflexivity.
      * destruct (fgets_read room rest) as [l' r'] eqn:Hrd.
        intros [= <- <-]. cbn. f_equal. now apply IH.
Qed.

(** Every successful [fgets] consumes at least one character. *)
Lemma fgets_progress_gen (n : nat) (pipe buf pipe' : cstring) :
  1 < n ->
  fgets n pipe = Some (buf, pipe') ->
  pipe = buf ++ pipe' /\ length pipe' < length pipe.
Proof.
  intros Hn. unfold fgets. destruct pipe as [|c rest]; [discriminate|].
  destruct (n - 1) as [|room] eqn:Hroom; [lia|].
  intros Hrd. injection Hrd as Hrd.
  pose proof (fgets_read_split (S room) (c :: rest) buf pipe' Hrd) as Hsplit.
  split; [exact Hsplit|].
  destruct (Ascii.eqb c newline).
  - injection Hrd as <- <-. cbn; lia.
  - destruct (fgets_read room rest) as [l' r'] eqn:Hrd'.
    injection Hrd as <- <-.
    apply fgets_read_split in Hrd'. subst rest.
    cbn. rewrite length_app. lia.
Qed.

Lemma fgets_progress (pipe buf pipe' : cstring) :
  fgets 512 pipe = Some (buf, pipe') ->
  pipe = buf ++ pipe' /\ length pipe' < length pipe.
Proof. apply fgets_progress_gen. lia. Qed.

Lemma records_fuel (f1 f2 : nat) (pipe : cstring) :
  length pipe <= f1 -> length pipe <= f2 ->
  records f1 pipe = records f2 pipe.
Proof.
  revert f2 pipe; induction f1 as [|f1 IH]; intros f2 pipe H1 H2.
  - destruct pipe; [|cbn in H1; lia]. destruct f2; reflexivity.
  - destruct f2 as [|f2].
    + destruct pipe; [reflexivity | cbn in H2; lia].
    + cbn [records]. destruct (fgets 512 pipe) as [[buf pipe']|] eqn:Hg;
        [|reflexivity].
      apply fgets_progress in Hg as [_ Hlt].
      f_equal. apply IH; lia.
Qed.

Lemma lines_read_step (pipe buf pipe' : cstring) :
  fgets 512 pipe = Some (buf, pipe') ->
  lines_read pipe = c_str buf :: lines_read pipe'.
Proof.
  intros Hg. unfold lines_read.
  pose proof (fgets_progress _ _ _ Hg) as [_ Hlt].
  destruct (length pipe) as [|n] eqn:Hn; [lia|].
  cbn [records]. rewrite Hg. f_equal. apply records_fuel; lia.
Qed.

Lemma lines_read_nil : lines_read [] = [].
Proof. reflexivity. Qed.

Lemma fgets_read_line (room : nat) (l rest : cstring) :
  ~ In newline l -> length l < room ->
  fgets_read room (l ++ newline :: rest) = (l ++ [newline], rest).
Proof.
  revert room; induction l as [|c l IH]; intros room Hnl Hlen.
  - destruct room as [|room]; [cbn in Hlen; lia|]. reflexivity.
  - destruct room as [|room]; [cbn in Hlen; lia|].
    cbn [app fgets_read].
    destruct (Ascii.eqb_spec c newline) as [->|_].
    + exfalso. apply Hnl. now left.
    + rewrite IH; [reflexivity | | cbn in Hlen; lia].
      intros Hin. apply Hnl. now right.
Qed.

Lemma c_str_plain (l : cstring) :
  ~ In nul l -> c_str (l ++ [newline]) = l ++ [newline].
Proof.
  induction l as [|c l IH]; intros Hn; cbn [app c_str].
  - reflexivity.
  - destruct (Ascii.eqb_spec c nul) as [->|_].
    + exfalso. apply Hn. now left.
    + rewrite IH; [reflexivity|]. intros Hin. apply Hn. now right.
Qed.

(** On ordinary text the lines read are the lines of the text. *)
Lemma lines_read_unlines (ls : list cstring) :
  Forall plain_line ls ->
  lines_read (unlines ls) = map (fun l => l ++ [newline]) ls.
Proof.
  induction 1 as [|l ls (Hnl & Hnul & Hlen) _ IH]; [reflexivity|].
  unfold unlines in *. cbn [map concat].
  rewrite <- app_assoc. cbn [app].
  set (rest := concat (map (fun l0 => l0 ++ [newline]) ls)) in *.
  assert (Hg : fgets 512 (l ++ newline :: rest)
               = Some (l ++ [newline], rest)).
  { unfold fgets.
    destruct (l ++ newline :: rest) as [|c s] eqn:Hs.
    - destruct l; discriminate Hs.
    - rewrite <- Hs. f_equal. change (512 - 1) with 511.
      now apply fgets_read_line. }
  rewrite (lines_read_step _ _ _ Hg), IH.
  now rewrite c_str_plain.
Qed.

End reading_facts.

(* ------------------------------------------------------------------------- *)
(** ** The fallback extractor *)

Section fallback_facts.
Context {P : Platform}.

(** With enough fuel the loop is the scan of the lines in order. *)
Lemma read_loop_scan_lines (fuel : nat) (pipe : cstring) (found : wstring) :
  length pipe < fuel ->
  read_loop fuel pipe found = scan_lines (lines_read pipe) found.
Proof.
  revert pipe; induction fuel as [|fuel IH]; intros pipe Hf; [lia|].
  cbn [read_loop].
  destruct (fgets 512 pipe) as [[buf pipe']|] eqn:Hg.
  - rewrite (lines_read_step _ _ _ Hg). cbn [scan_lines].
    apply fgets_progress in Hg as [_ Hlt].
    destruct (scan_line (c_str buf) found) as [[f|]|e]; cbn [bind];
      try reflexivity.
    apply IH; lia.
  - destruct pipe; [reflexivity | discriminate].
Qed.

Lemma parse_netsh_output_scan (pipe : cstring) :
  parse_netsh_output pipe = scan_lines (lines_read pipe) [].
Proof. apply read_loop_scan_lines; lia. Qed.

Lemma absent_no_occurrence {C : Type} (needle s : list C) :
  absent_from needle s 0 <-> ~ exists i, occurs_at needle s i.
Proof.
  split.
  - intros Ha [i Hi]. exact (Ha i (Nat.le_0_l _) Hi).
  - intros Hn j _ Hj. apply Hn. now exists j.
Qed.

Lemma label_pos_Some (line : cstring) (pos : nat) :
  label_pos (map tolower line) = Some pos <-> label_start line pos.
Proof.
  unfold label_pos, label_start.
  destruct (find (map tolower line) label_en 0) as [p|] eqn:Hen.
  - apply find_Some_iff in Hen. split.
    + intros [= <-]. now left.
    + intros [Hp | [Ha _]].
      * f_equal. eapply first_at_unique; eassumption.
      * exfalso. destruct Hen as (_ & Hocc & _).
        exact (Ha p (Nat.le_0_l _) Hocc).
  - apply find_None_iff in Hen. rewrite find_Some_iff. split.
    + intros Hja. right. now split.
    + intros [Hp | [_ Hja]]; [|exact Hja].
      exfalso. destruct Hp as (_ & Hocc & _).
      exact (Hen pos (Nat.le_0_l _) Hocc).
Qed.

Lemma label_pos_None (line : cstring) :
  label_pos (map tolower line) = None <-> ~ has_label line.
Proof.
  unfold label_pos, has_label, has_primary, has_localized.
  destruct (find (map tolower line) label_en 0) as [p|] eqn:Hen.
  - apply find_Some_iff in Hen as (_ & Hocc & _).
    split; [discriminate|]. intros Hn. exfalso. apply Hn. left. now exists p.
  - apply find_None_iff, absent_no_occurrence in Hen.
    rewrite find_None_iff, absent_no_occurrence. tauto.
Qed.

Lemma label_start_has_label (line : cstring) (pos : nat) :
  label_start line pos -> has_label line.
Proof.
  intros [(_ & Hocc & _) | [_ (_ & Hocc & _)]];
    [left | right]; now exists pos.
Qed.

Lemma label_start_unique (line : cstring) (p q : nat) :
  label_start line p -> label_start line q -> p = q.
Proof.
  intros Hp Hq. apply label_pos_Some in Hp, Hq. congruence.
Qed.

Lemma line_yields_unique (line V V' : cstring) :
  line_yields line V -> line_yields line V' -> V = V'.
Proof.
  intros (p & Hp & c & Hc & _ & ->) (q & Hq & d & Hd & _ & ->).
  pose proof (label_start_unique _ _ _ Hp Hq); subst q.
  pose proof (first_at_unique _ _ _ _ _ Hc Hd); subst d.
  reflexivity.
Qed.

(** A line with a label, a colon after it and text after the colon ends
    the loop; [found] is assigned unless the conversion yields nothing. *)
Lemma scan_line_yields (line V : cstring) (found : wstring) :
  line_yields line V ->
  scan_line line found =
  Ok (Break (if 0 <? length (MultiByteToWideChar (strip isspace V))
             then value_of V else found)).
Proof.
  intros (pos & Hpos & col & Hcol & Hlt & ->).
  apply label_pos_Some in Hpos. apply find_Some_iff in Hcol.
  unfold scan_line, line_body, find_char. rewrite Hpos, Hcol.
  destruct (Nat.ltb_spec (col + 1) (length line)) as [_|Hge]; [|lia].
  unfold substr_from.
  destruct (Nat.leb_spec (col + 1) (length line)) as [_|Hgt]; [|lia].
  cbn [bind]. rewrite trim_with_strip. cbn [bind].
  destruct (0 <? length (MultiByteToWideChar (strip isspace (skipn (col + 1) line))));
    [|reflexivity].
  rewrite trim_w_strip. reflexivity.
Qed.

Lemma scan_line_yields_nil (line V : cstring) :
  line_yields line V -> scan_line line [] = Ok (Break (value_of V)).
Proof.
  intros Hy. rewrite (scan_line_yields line V [] Hy).
  unfold value_of.
  destruct (MultiByteToWideChar (strip isspace V)); reflexivity.
Qed.

(** Any other line lets the loop go on. *)
Lemma scan_line_skips (line : cstring) (found : wstring) :
  (forall V, ~ line_yields line V) -> scan_line line found = Ok Continue.
Proof.
  intros Hno. unfold scan_line, line_body, find_char.
  destruct (label_pos (map tolower line)) as [pos|] eqn:Hpos;
    [|reflexivity].
  apply label_pos_Some in Hpos.
  destruct (find line [colon] pos) as [col|] eqn:Hcol; [|reflexivity].
  apply find_Some_iff in Hcol.
  destruct (Nat.ltb_spec (col + 1) (length line)) as [Hlt|_];
    [|reflexivity].
  exfalso. apply (Hno (skipn (col + 1) line)).
  exists pos. split; [exact Hpos|]. exists col. auto.
Qed.

Lemma line_yields_dec (line : cstring) :
  (exists V, line_yields line V) \/ (forall V, ~ line_yields line V).
Proof.
  destruct (label_pos (map tolower line)) as [pos|] eqn:Hpos.
  - pose proof Hpos as Hst. apply label_pos_Some in Hst.
    destruct (find line [colon] pos) as [col|] eqn:Hcol.
    + pose proof Hcol as Hc. apply find_Some_iff in Hc.
      destruct (Nat.lt_ge_cases (col + 1) (length line)) as [Hlt|Hge].
      * left. exists (skipn (col + 1) line), pos. split; [exact Hst|].
        exists col. auto.
      * right. intros V (q & Hq & d & Hd & Hlt & _).
        pose proof (label_start_unique _ _ _ Hst Hq); subst q.
        pose proof (first_at_unique _ _ _ _ _ Hc Hd); subst d. lia.
    + right. intros V (q & Hq & d & Hd & _).
      pose proof (label_start_unique _ _ _ Hst Hq); subst q.
      apply find_Some_iff in Hd. congruence.
  - right. intros V (q & Hq & _). apply label_pos_Some in Hq. congruence.
Qed.

Lemma no_label_no_yield (line : cstring) :
  ~ has_label line -> forall V, ~ line_yields line V.
Proof.
  intros Hn V (pos & Hpos & _). apply Hn.
  exact (label_start_has_label _ _ Hpos).
Qed.

(** The scan returns what the first yielding line gives. *)
Lemma scan_lines_first (pre : list cstring) (l : cstring)
    (post : list cstring) (V : cstring) :
  (forall l', In l' pre -> forall V', ~ line_yields l' V') ->
  line_yields l V ->
  scan_lines (pre ++ l :: post) [] = Ok (value_of V).
Proof.
  intros Hpre Hl. induction pre as [|x pre IH]; cbn [app scan_lines].
  - now rewrite (scan_line_yields_nil l V Hl).
  - rewrite scan_line_skips by (apply Hpre; now left).
    cbn [bind]. apply IH. intros l' Hin. apply Hpre. now right.
Qed.

Lemma scan_lines_none (lines : list cstring) (found : wstring) :
  (forall l, In l lines -> forall V, ~ line_yields l V) ->
  scan_lines lines found = Ok found.
Proof.
  induction lines as [|x lines IH]; intros Hno; cbn [scan_lines];
    [reflexivity|].
  rewrite scan_line_skips by (apply Hno; now left).
  cbn [bind]. apply IH. intros l Hin. apply Hno. now right.
Qed.

(** Either some line yields, and the first such line decides, or none
    does and nothing is found. *)
Lemma scan_lines_cases (lines : list cstring) :
  (exists pre l post V,
      lines = pre ++ l :: post /\
      (forall l', In l' pre -> forall V', ~ line_yields l' V') /\
      line_yields l V /\
      scan_lines lines [] = Ok (value_of V)) \/
  ((forall l, In l lines -> forall V, ~ line_yields l V) /\
   scan_lines lines [] = Ok []).
Proof.
  induction lines as [|x lines IH].
  - right. split; [intros l [] | reflexivity].
  - destruct (line_yields_dec x) as [[V HV]|Hno].
    + left. exists [], x, lines, V.
      split; [reflexivity|]. split; [intros l' []|]. split; [exact HV|].
      apply (scan_lines_first [] x lines V); [intros l' []|exact HV].
    + destruct IH as [(pre & l & post & V & -> & Hpre & Hl & Hs)|[Hall Hs]].
      * assert (Hpre' : forall l', In l' (x :: pre) ->
                                   forall V', ~ line_yields l' V').
        { intros l' [<-|Hin]; [exact Hno | now apply Hpre]. }
        left. exists (x :: pre), l, post, V.
        split; [reflexivity|]. split; [exact Hpre'|]. split; [exact Hl|].
        apply (scan_lines_first (x :: pre) l post V Hpre' Hl).
      * assert (Hall' : forall l, In l (x :: lines) ->
                                  forall V, ~ line_yields l V).
        { intros l [<-|Hin]; [exact Hno | now apply Hall]. }
        right. split; [exact Hall'|].
        apply scan_lines_none, Hall'.
Qed.

Lemma parse_netsh_output_total (pipe : cstring) :
  exists s, parse_netsh_output pipe = Ok (strip iswspace s).
Proof.
  rewrite parse_netsh_output_scan.
  destruct (scan_lines_cases (lines_read pipe))
    as [(pre & l & post & V & _ & _ & _ & Hs)|[_ Hs]]; rewrite Hs.
  - eexists; reflexivity.
  - exists []; reflexivity.
Qed.

End fallback_facts.

(* ------------------------------------------------------------------------- *)
(** ** The extractors consult the platform only on characters of the input *)

Section agreement.
Variable P : Platform.
Hypothesis HP : ascii_conformant P.

Local Abbreviation C0 := (c_locale no_popen).

Lemma c_locale_conformant (popen : cstring -> option cstring) :
  ascii_conformant (c_locale popen).
Proof.
  constructor; try reflexivity.
  intros s. cbn. unfold ascii_to_wide.
  induction s as [|c s IH]; cbn; [reflexivity|].
  rewrite andb_true_iff. intros [Hc Hs]. now rewrite Hc, IH.
Qed.

Lemma in_firstn {A : Type} (n : nat) (l : list A) (x : A) :
  In x (firstn n l) -> In x l.
Proof.
  intros Hin. rewrite <- (firstn_skipn n l). apply in_or_app. now left.
Qed.

Lemma in_skipn {A : Type} (n : nat) (l : list A) (x : A) :
  In x (skipn n l) -> In x l.
Proof.
  intros Hin. rewrite <- (firstn_skipn n l). apply in_or_app. now right.
Qed.

Lemma extract_agree (xml : wstring) :
  forallb is_wascii xml = true ->
  @extractKeyMaterial P xml = @extractKeyMaterial C0 xml.
Proof.
  intros Hx. rewrite forallb_forall in Hx.
  unfold extractKeyMaterial.
  assert (Hlow : @tolower_w P xml = @tolower_w C0 xml).
  { apply map_ext_in. intros c Hc. apply (towlower_ascii HP), Hx, Hc. }
  rewrite Hlow. unfold extract_body.
  destruct (find (@tolower_w C0 xml) tag1 0) as [p1|]; [|reflexivity].
  destruct (find (@tolower_w C0 xml) tag2 (p1 + length tag1)) as [p2|];
    [|reflexivity].
  unfold substr. destruct (_ <=? _); [|reflexivity].
  cbn [bind]. rewrite !trim_w_strip. f_equal.
  apply strip_ext. intros c Hc.
  apply (iswspace_ascii HP), Hx.
  eapply in_skipn, in_firstn, Hc.
Qed.

Lemma in_c_str (buf : cstring) (c : char) : In c (c_str buf) -> In c buf.
Proof.
  induction buf as [|x buf IH]; cbn [c_str]; [intros []|].
  destruct (Ascii.eqb x nul); [intros []|].
  intros [->|Hin]; [now left | right; now apply IH].
Qed.

Lemma in_lines_read (pipe l : cstring) (c : char) :
  In l (lines_read pipe) -> In c l -> In c pipe.
Proof.
  unfold lines_read. generalize (length pipe) as fuel.
  intros fuel; revert pipe; induction fuel as [|fuel IH]; intros pipe;
    cbn [records]; [intros []|].
  destruct (fgets 512 pipe) as [[buf pipe']|] eqn:Hg; [|intros []].
  apply fgets_progress in Hg as [-> _].
  intros [<-|Hin] Hc; apply in_or_app.
  - left. now apply in_c_str.
  - right. now apply (IH pipe').
Qed.

Lemma scan_line_agree (line : cstring) (found : wstring) :
  (forall c, In c line -> is_ascii c = true) ->
  @scan_line P line found = @scan_line C0 line found.
Proof.
  intros Hl. unfold scan_line.
  assert (Hlow : map (@tolower P) line = map (@tolower C0) line).
  { apply map_ext_in. intros c Hc. apply (tolower_ascii HP), Hl, Hc. }
  rewrite Hlow. unfold line_body.
  destruct (label_pos (map (@tolower C0) line)) as [pos|]; [|reflexivity].
  destruct (find_char line colon pos) as [col|]; [|reflexivity].
  destruct (col + 1 <? length line); [|reflexivity].
  unfold substr_from. destruct (_ <=? _); [|reflexivity].
  cbn [bind]. rewrite !trim_with_strip. cbn [bind].
  assert (Hsp : strip (@isspace P) (skipn (col + 1) line)
                = strip (@isspace C0) (skipn (col + 1) line)).
  { apply strip_ext. intros c Hc.
    apply (isspace_ascii HP), Hl. eapply in_skipn, Hc. }
  rewrite Hsp.
  set (t := strip (@isspace C0) (skipn (col + 1) line)).
  assert (Ht : forall c, In c t -> is_ascii c = true).
  { intros c Hc. apply Hl. eapply in_skipn, strip_incl, Hc. }
  assert (Hfa : forallb is_ascii t = true) by now apply forallb_forall.
  rewrite (mb2wc_ascii HP t Hfa).
  rewrite (mb2wc_ascii (c_locale_conformant no_popen) t Hfa).
  destruct (0 <? _); [|reflexivity].
  rewrite !trim_w_strip. cbn [bind]. do 2 f_equal.
  apply strip_ext. intros w Hw.
  apply (iswspace_ascii HP).
  apply in_map_iff in Hw as (c & <- & Hc). exact (Ht c Hc).
Qed.

Lemma parse_agree (pipe : cstring) :
  forallb is_ascii pipe = true ->
  @parse_netsh_output P pipe = @parse_netsh_output C0 pipe.
Proof.
  intros Hp. rewrite forallb_forall in Hp.
  rewrite !parse_netsh_output_scan.
  assert (Hall : forall l, In l (lines_read pipe) ->
                           forall c, In c l -> is_ascii c = true).
  { intros l Hl c Hc. apply Hp. eapply in_lines_read; eassumption. }
  revert Hall. generalize (lines_read pipe) as lines.
  generalize (@nil wchar_t) as found.
  intros found lines; induction lines as [|l lines IH]; intros Hall;
    cbn [scan_lines]; [reflexivity|].
  rewrite scan_line_agree by (apply Hall; now left).
  destruct (@scan_line C0 l found) as [[f|]|e]; cbn [bind]; try reflexivity.
  apply IH. intros l' Hl'. apply Hall. now right.
Qed.

End agreement.

(* ------------------------------------------------------------------------- *)
(** ** Objects in memory: writes reach only the object written *)

Section store_facts.
Context {C : Type}.

Lemma alloc_spec (h h' : heap) (v : list C) (a : addr) :
  alloc h v = (h', a) ->
  a = length h /\ length h' = S (length h) /\ load h' a = v /\
  forall b, b < length h -> load h' b = load h b.
Proof.
  unfold alloc, load. intros [= <- <-]. repeat split.
  - rewrite length_app. cbn. lia.
  - apply nth_middle.
  - intros b Hb. now apply app_nth1.
Qed.

Lemma length_write_obj (h : heap) (a : addr) (v : list C) :
  length (write_obj h a v) = length h.
Proof.
  revert a; induction h as [|x h IH]; intros [|a]; cbn; auto.
Qed.

Lemma load_write_same (h : heap) (a : addr) (v : list C) :
  a < length h -> load (write_obj h a v) a = v.
Proof.
  revert a; induction h as [|x h IH]; intros [|a]; cbn; try lia; auto.
  intros Ha. apply IH. lia.
Qed.

Lemma load_write_other (h : heap) (a b : addr) (v : list C) :
  a <> b -> load (write_obj h a v) b = load h b.
Proof.
  revert a b; induction h as [|x h IH]; intros [|a] [|b] Hab; cbn;
    try reflexivity; try congruence.
  apply IH. congruence.
Qed.

Lemma set_nth_middle (pre post : list C) (c x : C) :
  set_nth (pre ++ c :: post) (length pre) x = pre ++ x :: post.
Proof. induction pre as [|y pre IH]; cbn; [reflexivity | now rewrite IH]. Qed.

Lemma nth_error_middle (pre post : list C) (c : C) :
  nth_error (pre ++ c :: post) (length pre) = Some c.
Proof. induction pre as [|y pre IH]; cbn; [reflexivity | exact IH]. Qed.

(** The in-place transform, started when [done] is already transformed
    and [todo] is not, leaves [map f] of the whole in the object and
    touches nothing else. *)
Lemma transform_inplace_spec (f : C -> C) (todo done : list C)
    (h : heap) (r : addr) :
  r < length h ->
  load h r = map f done ++ todo ->
  let h' := transform_inplace f h r (length done) (length todo) in
  length h' = length h /\
  load h' r = map f (done ++ todo) /\
  forall b, b <> r -> load h' b = load h b.
Proof.
  revert done h; induction todo as [|c todo IH]; intros done h Hr Hl.
  - cbn. rewrite app_nil_r in *. auto.
  - cbn [length transform_inplace]. cbv zeta.
    assert (Hi : length (map f done) = length done) by apply length_map.
    assert (Hn : nth_error (load h r) (length done) = Some c).
    { rewrite Hl, <- Hi. apply nth_error_middle. }
    assert (Hs : store_char h r (length done) (f c)
                 = write_obj h r (map f done ++ f c :: todo)).
    { unfold store_char. rewrite Hl, <- Hi. f_equal. apply set_nth_middle. }
    rewrite Hn, Hs.
    set (h1 := write_obj h r (map f done ++ f c :: todo)).
    assert (Hr1 : r < length h1)
      by (subst h1; now rewrite length_write_obj).
    assert (Hl1 : load h1 r = map f (done ++ [c]) ++ todo).
    { subst h1. rewrite load_write_same by exact Hr.
      rewrite map_app, <- app_assoc. reflexivity. }
    specialize (IH (done ++ [c]) h1 Hr1 Hl1). cbv zeta in IH.
    rewrite length_app in IH. cbn [length] in IH.
    rewrite Nat.add_1_r in IH.
    destruct IH as (Hlen & Hload & Hother).
    repeat split.
    + rewrite Hlen. subst h1. apply length_write_obj.
    + rewrite Hload, <- app_assoc. reflexivity.
    + intros b Hb. rewrite (Hother b Hb). subst h1.
      apply load_write_other. congruence.
Qed.

(** A fresh copy transformed in place: the copy holds [map f] of the
    original, every earlier object is as it was. *)
Lemma copy_transform_spec (f : C -> C) (h h1 : heap) (s : list C)
    (r : addr) :
  alloc h s = (h1, r) ->
  let h' := transform_inplace f h1 r 0 (length (load h1 r)) in
  length h' = S (length h) /\
  load h' r = map f s /\
  forall a, a < length h -> load h' a = load h a.
Proof.
  intros Ha h'. apply alloc_spec in Ha as (-> & Hlen1 & Hnew & Hold).
  assert (Hr : length h < length h1) by lia.
  destruct (transform_inplace_spec f s [] h1 (length h) Hr Hnew)
    as (Hlen & Hload & Hother).
  cbn [length app] in Hlen, Hload, Hother.
  subst h'. rewrite Hnew.
  repeat split.
  - lia.
  - exact Hload.
  - intros a Ha. rewrite Hother by lia. now apply Hold.
Qed.

End store_facts.

(* ------------------------------------------------------------------------- *)
(** ** The extractors on objects in memory compute the pure extractors *)

Section program_in_store_facts.
Context {P : Platform}.

Lemma tolower_w_st_spec (h h' : heap) (s r : addr) :
  tolower_w_st h s = (h', r) ->
  load h' r = tolower_w (load h s) /\ preserves h h'.
Proof.
  unfold tolower_w_st.
  destruct (alloc h (load h s)) as [h1 r1] eqn:Ha. intros [= <- <-].
  destruct (copy_transform_spec towlower h h1 (load h s) r1 Ha)
    as (Hlen & Hload & Hold).
  split; [exact Hload|]. split; [lia | exact Hold].
Qed.

Lemma extractKeyMaterial_st_spec (h : heap) (xml : addr) :
  xml < length h ->
  snd (extractKeyMaterial_st h xml) = extractKeyMaterial (load h xml) /\
  preserves h (fst (extractKeyMaterial_st h xml)).
Proof.
  intros Hx. unfold extractKeyMaterial_st.
  destruct (tolower_w_st h xml) as [h1 low] eqn:Hl.
  apply tolower_w_st_spec in Hl as [Hlow Hpres]. cbn [fst snd].
  split; [|exact Hpres].
  destruct Hpres as [_ Hold].
  rewrite Hlow, (Hold xml Hx). reflexivity.
Qed.

Lemma c_str_app_nul (rd : cstring) : c_str (rd ++ [nul]) = c_str rd.
Proof.
  induction rd as [|c rd IH]; cbn [app c_str]; [reflexivity|].
  destruct (Ascii.eqb c nul); [reflexivity | now rewrite IH].
Qed.

Lemma skipn_app_length {A : Type} (l r : list A) :
  skipn (length l) (l ++ r) = r.
Proof. induction l; cbn; auto. Qed.

Lemma line_objects_spec (h h4 : heap) (buf line low : addr)
    (rd : cstring) :
  buf < length h ->
  line_objects h buf rd = (h4, line, low) ->
  load h4 line = c_str rd /\
  load h4 low = map tolower (c_str rd) /\
  length h <= length h4 /\
  forall a, a < length h -> a <> buf -> load h4 a = load h a.
Proof.
  intros Hb. unfold line_objects.
  set (h1 := write_obj h buf (rd ++ [nul])).
  assert (Hlen1 : length h1 = length h) by apply length_write_obj.
  assert (Hbuf1 : load h1 buf = rd ++ [nul]) by now apply load_write_same.
  destruct (alloc h1 (c_str (load h1 buf))) as [h2 line'] eqn:Ha2.
  destruct (alloc h2 (load h2 line')) as [h3 low'] eqn:Ha3.
  intros [= <- <- <-].
  destruct (copy_transform_spec tolower h2 h3 (load h2 line') low' Ha3)
    as (Hlen4 & Hlow & Hold4).
  apply alloc_spec in Ha2 as (-> & Hlen2 & Hline & Hold2).
  rewrite Hbuf1, c_str_app_nul in Hline.
  repeat split.
  - rewrite Hold4 by lia. exact Hline.
  - rewrite Hlow, Hline. reflexivity.
  - lia.
  - intros a Ha Hab. rewrite Hold4, Hold2 by lia.
    apply load_write_other. congruence.
Qed.

(** The loop on the store returns what the pure loop returns on the rest
    of the text, and changes no earlier object but [buf]. *)
Lemma read_loop_st_spec (fuel : nat) (h : heap) (text : addr) (pos : nat)
    (buf : addr) (found : wstring) :
  text < length h -> buf < length h -> text <> buf ->
  snd (read_loop_st fuel h text pos buf found)
  = read_loop fuel (skipn pos (load h text)) found /\
  length h <= length (fst (read_loop_st fuel h text pos buf found)) /\
  forall a, a < length h -> a <> buf ->
            load (fst (read_loop_st fuel h text pos buf found)) a = load h a.
Proof.
  revert h pos; induction fuel as [|fuel IH]; intros h pos Ht Hb Hne.
  - cbn. auto.
  - cbn [read_loop_st read_loop].
    destruct (fgets 512 (skipn pos (load h text))) as [[rd rest]|] eqn:Hg;
      [|cbn; auto].
    destruct (line_objects h buf rd) as [[h4 line] low] eqn:Hobj.
    apply line_objects_spec in Hobj as (Hline & Hlow & Hlen4 & Hkeep);
      [|exact Hb].
    rewrite Hline, Hlow. fold (scan_line (c_str rd) found).
    destruct (scan_line (c_str rd) found) as [[f|]|e]; cbn [bind fst snd].
    + split; [reflexivity|]. split; [lia | exact Hkeep].
    + assert (Hrest : skipn (pos + length rd) (load h4 text) = rest).
      { rewrite (Hkeep text Ht Hne).
        apply fgets_progress in Hg as [Hsplit _].
        rewrite Nat.add_comm, <- skipn_skipn, Hsplit.
        apply skipn_app_length. }
      destruct (IH h4 (pos + length rd)) as (Hres & Hlen & Hold);
        [lia | lia | exact Hne |].
      rewrite Hrest in Hres.
      split; [exact Hres|]. split; [lia|].
      intros a Ha Hab. rewrite Hold by (try lia; exact Hab).
      now apply Hkeep.
    + split; [reflexivity|]. split; [lia | exact Hkeep].
Qed.

Lemma parse_netsh_output_st_spec (h : heap) (text buf : addr) :
  text < length h -> buf < length h -> text <> buf ->
  snd (parse_netsh_output_st h text buf)
  = parse_netsh_output (load h text) /\
  load (fst (parse_netsh_output_st h text buf)) text = load h text.
Proof.
  intros Ht Hb Hne.
  destruct (read_loop_st_spec (S (length (load h text))) h text 0 buf []
              Ht Hb Hne) as (Hres & _ & Hold).
  split; [exact Hres | now apply Hold].
Qed.

End program_in_store_facts.

(* ------------------------------------------------------------------------- *)
(** ** Newline-terminated lines of the text and the lines the loop reads *)

Section text_lines_facts.
Context {P : Platform}.

(** Lines that fit the buffer are read as they are, whatever follows. *)
Lemma lines_read_unlines_app (ls : list cstring) (rest : cstring) :
  Forall plain_line ls ->
  lines_read (unlines ls ++ rest)
  = map (fun l => l ++ [newline]) ls ++ lines_read rest.
Proof.
  induction 1 as [|l ls (Hnl & Hnul & Hlen) _ IH]; [reflexivity|].
  unfold unlines in *. cbn [map concat].
  rewrite <- !app_assoc. cbn [app].
  set (tail := concat (map (fun l0 => l0 ++ [newline]) ls) ++ rest) in *.
  assert (Hg : fgets 512 (l ++ newline :: tail)
               = Some (l ++ [newline], tail)).
  { unfold fgets.
    destruct (l ++ newline :: tail) as [|c s] eqn:Hs.
    - destruct l; discriminate Hs.
    - rewrite <- Hs. f_equal. change (512 - 1) with 511.
      now apply fgets_read_line. }
  rewrite (lines_read_step _ _ _ Hg), IH.
  now rewrite c_str_plain.
Qed.

Lemma unlines_snoc (ls : list cstring) (l : cstring) :
  unlines (ls ++ [l]) = unlines ls ++ (l ++ [newline]).
Proof.
  unfold unlines. rewrite map_app, concat_app. cbn [map concat].
  now rewrite app_nil_r.
Qed.

(** In a line that ends with its newline, a colon is never the last byte:
    a label and a colon from the label on are enough for the line to
    yield. *)
Lemma terminated_line_yields (l : cstring) (pos col : nat) :
  label_start (l ++ [newline]) pos ->
  first_at [colon] (l ++ [newline]) pos col ->
  line_yields (l ++ [newline]) (skipn (col + 1) (l ++ [newline])).
Proof.
  intros Hpos Hcol. exists pos. split; [exact Hpos|].
  exists col. split; [exact Hcol|]. split; [|reflexivity].
  destruct Hcol as (_ & [Hb Hf] & _).
  rewrite length_app in *. cbn [length] in *.
  destruct (Nat.eq_dec col (length l)) as [->|Hne]; [|lia].
  exfalso. rewrite skipn_app, skipn_all, Nat.sub_diag in Hf.
  cbn in Hf. discriminate Hf.
Qed.

(** A line with a label and no colon from the label on, or with its first
    such colon as its last byte, does not yield. *)
Lemma label_line_without_value (line : cstring) (pos : nat) :
  label_start line pos ->
  absent_from [colon] line pos \/
  (exists col, first_at [colon] line pos col /\ col + 1 = length line) ->
  forall V, ~ line_yields line V.
Proof.
  intros Hpos Hcolon V (q & Hq & col' & Hc & Hlt & _).
  pose proof (label_start_unique _ _ _ Hpos Hq); subst q.
  destruct Hcolon as [Habs | (col & Hcol & Hlast)].
  - destruct Hc as (Hle & Hocc & _). exact (Habs col' Hle Hocc).
  - pose proof (first_at_unique _ _ _ _ _ Hc Hcol); subst col'. lia.
Qed.

(** The result on a text that begins with lines fitting the buffer, the
    last of which is the first to yield. *)
Lemma parse_unlines_first (pre : list cstring) (l rest V : cstring) :
  Forall plain_line pre -> plain_line l ->
  (forall l', In l' pre -> forall V', ~ line_yields (l' ++ [newline]) V') ->
  line_yields (l ++ [newline]) V ->
  parse_netsh_output (unlines pre ++ (l ++ [newline]) ++ rest)
  = Ok (value_of V).
Proof.
  intros Hpre Hl Hno Hy.
  rewrite app_assoc, <- unlines_snoc.
  rewrite parse_netsh_output_scan, lines_read_unlines_app
    by (apply Forall_app; split; [exact Hpre | now constructor]).
  rewrite map_app. cbn [map]. rewrite <- app_assoc. cbn [app].
  apply scan_lines_first; [|exact Hy].
  intros l' Hin. apply in_map_iff in Hin as (l0 & <- & Hin0).
  now apply Hno.
Qed.

End text_lines_facts.

(* ========================================================================= *)
(** * The claims of the specification *)

(** C1. When the document contains, in any letter case, the opening marker
    and later the closing marker, [extractKeyMaterial] returns the text of
    the original document between the end of the (first) opening marker and
    the start of the first closing marker after it, with the whitespace at
    both ends removed.  On a platform that treats ASCII as the "C" locale
    does, the document [<KeyMaterial> secret123 </KeyMaterial>] gives
    [secret123]. *)
Theorem extract_key_returns_trimmed_content :
  forall P : Platform,
    (forall (xml : wstring) (i j : nat),
        opening_at xml i -> closing_at xml j -> i + length tag1 <= j ->
        exists p1 p2,
          first_at tag1 (tolower_w xml) 0 p1 /\
          first_at tag2 (tolower_w xml) (p1 + length tag1) p2 /\
          returns_trimmed iswspace (extractKeyMaterial xml)
                          (slice xml (p1 + length tag1) p2)) /\
    (ascii_conformant P ->
     extractKeyMaterial (L "<KeyMaterial> secret123 </KeyMaterial>")
     = Ok (L "secret123")).
Proof.
  intros P. split.
  - intros xml i j Hi Hj Hij. unfold opening_at, closing_at in *.
    destruct (find_exists (tolower_w xml) tag1 0 i (Nat.le_0_l _) Hi)
      as (p1 & Hp1 & Hle).
    destruct (find_exists (tolower_w xml) tag2 (p1 + length tag1) j
                ltac:(lia) Hj) as (p2 & Hp2 & _).
    apply find_Some_iff in Hp1, Hp2.
    exists p1, p2. split; [exact Hp1|]. split; [exact Hp2|].
    eexists. split; [apply extract_found; eassumption|].
    apply strip_trimmed_of.
  - intros HP. rewrite (extract_agree P HP) by reflexivity.
    reflexivity.
Qed.

Lemma extract_key_returns_trimmed_content_witness :
  (exists p1 p2,
      first_at tag1
        (tolower_w (P := c_locale no_popen)
           (L "<KeyMaterial> secret123 </KeyMaterial>")) 0 p1 /\
      first_at tag2
        (tolower_w (P := c_locale no_popen)
           (L "<KeyMaterial> secret123 </KeyMaterial>")) (p1 + length tag1) p2 /\
      returns_trimmed (iswspace (Platform := c_locale no_popen))
        (extractKeyMaterial (P := c_locale no_popen)
           (L "<KeyMaterial> secret123 </KeyMaterial>"))
        (slice (L "<KeyMaterial> secret123 </KeyMaterial>")
               (p1 + length tag1) p2)) /\
  extractKeyMaterial (P := c_locale no_popen)
    (L "<KeyMaterial> secret123 </KeyMaterial>") = Ok (L "secret123").
Proof.
  destruct (extract_key_returns_trimmed_content (c_locale no_popen))
    as [Hgen Hscen].
  split.
  - apply (Hgen (L "<KeyMaterial> secret123 </KeyMaterial>") 0 24).
    + split; [cbn; lia | reflexivity].
    + split; [cbn; lia | reflexivity].
    + cbn; lia.
  - apply Hscen. apply c_locale_conformant.
Defined.

(** C5. When the document has no opening marker, or no closing marker at or
    after the end of the opening marker (so also when the only closing
    marker stands before the opening one), [extractKeyMaterial] returns the
    empty string, its "not found" value, and does not throw. *)
Theorem extract_key_not_found :
  forall (P : Platform) (xml : wstring),
    (forall i, ~ opening_at xml i) \/
    (exists p1, first_at tag1 (tolower_w xml) 0 p1 /\
                forall j, closing_at xml j -> j < p1 + length tag1) ->
    extractKeyMaterial xml = Ok [].
Proof.
  intros P xml [Hno | (p1 & Hp1 & Hbefore)].
  - apply extract_no_opening. intros i _ Hi. exact (Hno i Hi).
  - apply (extract_no_closing xml p1 Hp1).
    intros j Hj Hocc. specialize (Hbefore j Hocc). lia.
Qed.

Lemma extract_key_not_found_witness :
  extractKeyMaterial (P := c_locale no_popen) (L "<other>x</other>") = Ok [] /\
  extractKeyMaterial (P := c_locale no_popen)
    (L "</keyMaterial><KeyMaterial>x") = Ok [].
Proof.
  split.
  - apply extract_key_not_found. left.
    intros i Hi.
    refine (proj1 (find_None_iff _ _ 0) _ i (Nat.le_0_l _) Hi).
    reflexivity.
  - apply extract_key_not_found. right. exists 14. split.
    + apply find_Some_iff. reflexivity.
    + intros j Hj. destruct (Nat.lt_ge_cases j (14 + length tag1))
        as [Hlt|Hge]; [exact Hlt|].
      exfalso.
      refine (proj1 (find_None_iff _ _ (14 + length tag1)) _ j Hge Hj).
      reflexivity.
Defined.

(** C10. With several opening markers in the document, the first opening
    marker and the first closing marker after it decide: whatever text
    follows that closing marker, further marker pairs included, has no
    influence on the result. *)
Theorem extract_key_first_pair_wins :
  forall (P : Platform) (xml rest : wstring) (p1 p2 : nat),
    first_at tag1 (tolower_w xml) 0 p1 ->
    first_at tag2 (tolower_w xml) (p1 + length tag1) p2 ->
    extractKeyMaterial (xml ++ rest)
    = Ok (strip iswspace (slice xml (p1 + length tag1) p2)) /\
    extractKeyMaterial (xml ++ rest) = extractKeyMaterial xml.
Proof.
  intros P xml rest p1 p2 H1 H2.
  assert (Hb : p2 <= length xml).
  { destruct H2 as (_ & [Hb _] & _). rewrite length_tolower_w in Hb. lia. }
  assert (Hext : extractKeyMaterial (xml ++ rest)
                 = Ok (strip iswspace (slice xml (p1 + length tag1) p2))).
  { rewrite <- (slice_app xml rest _ _ Hb).
    apply extract_found; unfold tolower_w; rewrite map_app;
      apply first_at_app; assumption. }
  split; [exact Hext|].
  rewrite Hext. symmetry. now apply extract_found.
Qed.

Lemma extract_key_first_pair_wins_witness :
  extractKeyMaterial (P := c_locale no_popen)
    (L "<keyMaterial>a</keyMaterial>" ++ L "<keyMaterial>b</keyMaterial>")
  = Ok (L "a").
Proof.
  refine (eq_trans
            (proj1 (extract_key_first_pair_wins (c_locale no_popen)
                      (L "<keyMaterial>a</keyMaterial>")
                      (L "<keyMaterial>b</keyMaterial>") 0 14 _ _)) _).
  - apply find_Some_iff. reflexivity.
  - apply find_Some_iff. reflexivity.
  - reflexivity.
Defined.

(** Closing concrete membership and line-shape goals by computation. *)
Ltac not_in_literal :=
  let Hin := fresh "Hin" in
  intros Hin;
  repeat (destruct Hin as [Hin|Hin]; [discriminate Hin|]);
  exact Hin.

Ltac plain_literal :=
  split; [not_in_literal | split; [not_in_literal | cbn; lia]].

(** C3, as the specification states it, fails on a line that does not fit
    the 512-byte buffer and on a line that holds a NUL byte.  Each of the
    two texts below is a single line with the primary label, a colon after
    it and the value [pw]; the extractor returns nothing for either. *)
Lemma fallback_value_after_primary_label_counterexample :
  first_at label_en
    (map (tolower (Platform := c_locale no_popen))
         (repeat (ascii_of_nat 32) 505 ++ lit "Key Content : pw" ++ [newline]))
    0 505 /\
  value_after
    (repeat (ascii_of_nat 32) 505 ++ lit "Key Content : pw" ++ [newline])
    505 (lit " pw" ++ [newline]) /\
  ~ In newline (repeat (ascii_of_nat 32) 505 ++ lit "Key Content : pw") /\
  parse_netsh_output (P := c_locale no_popen)
    (repeat (ascii_of_nat 32) 505 ++ lit "Key Content : pw" ++ [newline])
  = Ok [] /\
  first_at label_en
    (map (tolower (Platform := c_locale no_popen))
         (lit "Key Content " ++ [nul] ++ lit ": pw" ++ [newline]))
    0 0 /\
  value_after (lit "Key Content " ++ [nul] ++ lit ": pw" ++ [newline])
    0 (lit " pw" ++ [newline]) /\
  ~ In newline (lit "Key Content " ++ [nul] ++ lit ": pw") /\
  parse_netsh_output (P := c_locale no_popen)
    (lit "Key Content " ++ [nul] ++ lit ": pw" ++ [newline])
  = Ok [] /\
  value_of (P := c_locale no_popen) (lit " pw" ++ [newline]) = L "pw" /\
  Ok (L "pw") <> Ok (@nil wchar_t).
Proof.
  split; [apply find_Some_iff; vm_compute; reflexivity|].
  split.
  { exists 517. split; [apply find_Some_iff; vm_compute; reflexivity|].
    split; [apply Nat.ltb_lt; vm_compute; reflexivity|].
    vm_compute; reflexivity. }
  split.
  { intros Hin. apply in_app_or in Hin as [Hin|Hin].
    - apply repeat_spec in Hin. discriminate Hin.
    - revert Hin. not_in_literal. }
  split; [vm_compute; reflexivity|].
  split; [apply find_Some_iff; vm_compute; reflexivity|].
  split.
  { exists 13. split; [apply find_Some_iff; vm_compute; reflexivity|].
    split; [apply Nat.ltb_lt; vm_compute; reflexivity|].
    vm_compute; reflexivity. }
  split; [not_in_literal|].
  split; [vm_compute; reflexivity|].
  split; [vm_compute; reflexivity | discriminate].
Qed.

(** C3, amended.  Lines are taken as the loop reads them: the text up to
    and including the next newline, cut after 511 bytes and at a NUL byte.
    When such a line contains the primary label and, from the first
    occurrence of the label on, a colon followed by the text [V] (the rest
    of the line, its newline included), and no earlier line contains either
    label, the fallback extractor returns [V] with the whitespace at both
    ends removed (trimmed as bytes, converted to wide characters, trimmed
    again).  This holds in particular for a text that begins with
    newline-terminated lines, each shorter than 511 bytes and free of NUL
    bytes, the last of which is that line, whatever text follows it.  On a
    platform that treats ASCII as the "C" locale does, the text
    [Key Content            : hunter2] followed by a newline gives
    [hunter2]. *)
Theorem fallback_returns_value_after_primary_label :
  forall P : Platform,
    (forall (text : cstring) (pre : list cstring) (l : cstring)
            (post : list cstring) (pos : nat) (V : cstring),
        lines_read text = pre ++ l :: post ->
        (forall l', In l' pre -> ~ has_label l') ->
        first_at label_en (map tolower l) 0 pos ->
        value_after l pos V ->
        exists t,
          trimmed_of isspace V t /\
          returns_trimmed iswspace (parse_netsh_output text)
                          (MultiByteToWideChar t)) /\
    (forall (pre : list cstring) (l rest : cstring) (pos : nat) (V : cstring),
        Forall plain_line pre -> plain_line l ->
        (forall l', In l' pre -> ~ has_label (l' ++ [newline])) ->
        first_at label_en (map tolower (l ++ [newline])) 0 pos ->
        value_after (l ++ [newline]) pos V ->
        exists t,
          trimmed_of isspace V t /\
          returns_trimmed iswspace
            (parse_netsh_output (unlines pre ++ (l ++ [newline]) ++ rest))
            (MultiByteToWideChar t)) /\
    (ascii_conformant P ->
     parse_netsh_output (lit "Key Content            : hunter2" ++ [newline])
     = Ok (L "hunter2")).
Proof.
  intros P. split; [|split].
  - intros text pre l post pos V Hlines Hpre Hpos HV.
    exists (strip isspace V). split; [apply strip_trimmed_of|].
    exists (value_of V). split; [|apply strip_trimmed_of].
    rewrite parse_netsh_output_scan, Hlines.
    apply scan_lines_first.
    + intros l' Hin. apply no_label_no_yield, Hpre, Hin.
    + exists pos. split; [now left | exact HV].
  - intros pre l rest pos V Hplain Hl Hpre Hpos HV.
    exists (strip isspace V). split; [apply strip_trimmed_of|].
    exists (value_of V). split; [|apply strip_trimmed_of].
    apply parse_unlines_first; try assumption.
    + intros l' Hin. apply no_label_no_yield, Hpre, Hin.
    + exists pos. split; [now left | exact HV].
  - intros HP. rewrite (parse_agree P HP) by reflexivity.
    reflexivity.
Qed.

Lemma fallback_returns_value_after_primary_label_witness :
  (exists t,
      trimmed_of (isspace (Platform := c_locale no_popen))
                 (lit " hunter2" ++ [newline]) t /\
      returns_trimmed (iswspace (Platform := c_locale no_popen))
        (parse_netsh_output (P := c_locale no_popen)
           (lit "Key Content            : hunter2" ++ [newline]))
        (MultiByteToWideChar (Platform := c_locale no_popen) t)) /\
  (exists t,
      trimmed_of (isspace (Platform := c_locale no_popen))
                 (lit " hunter2" ++ [newline]) t /\
      returns_trimmed (iswspace (Platform := c_locale no_popen))
        (parse_netsh_output (P := c_locale no_popen)
           (unlines [lit "SSID name : Home"]
              ++ (lit "Key Content : hunter2" ++ [newline])
              ++ lit "Cost : Unrestricted"))
        (MultiByteToWideChar (Platform := c_locale no_popen) t)) /\
  parse_netsh_output (P := c_locale no_popen)
    (lit "Key Content            : hunter2" ++ [newline])
  = Ok (L "hunter2").
Proof.
  destruct (fallback_returns_value_after_primary_label (c_locale no_popen))
    as (Hgen & Htext & Hscen).
  split; [|split].
  - apply (Hgen (lit "Key Content            : hunter2" ++ [newline])
                [] (lit "Key Content            : hunter2" ++ [newline])
                [] 0).
    + reflexivity.
    + intros l' [].
    + apply find_Some_iff. reflexivity.
    + exists 23. split; [apply find_Some_iff; reflexivity|].
      split; [cbn; lia | reflexivity].
  - apply (Htext [lit "SSID name : Home"] (lit "Key Content : hunter2")
                 (lit "Cost : Unrestricted") 0).
    + constructor; [plain_literal | constructor].
    + plain_literal.
    + intros l' [<-|[]]. apply label_pos_None. reflexivity.
    + apply find_Some_iff. reflexivity.
    + exists 12. split; [apply find_Some_iff; reflexivity|].
      split; [cbn; lia | reflexivity].
  - apply Hscen. apply c_locale_conformant.
Defined.

(** C8, as the specification states it, fails when "last character of the
    line" is read without the newline: in the text below the colon of the
    first line is the last character before the newline, yet the loop stops
    at that line with an empty result and the value of the second line is
    not returned. *)
Lemma fallback_colon_before_newline_counterexample :
  lines_read (lit "Key Content:" ++ [newline]
                ++ lit "Key Content : hunter2" ++ [newline])
  = [lit "Key Content:" ++ [newline];
     lit "Key Content : hunter2" ++ [newline]] /\
  label_start (P := c_locale no_popen) (lit "Key Content:") 0 /\
  first_at [colon] (lit "Key Content:") 0 11 /\
  11 + 1 = length (lit "Key Content:") /\
  scan_line (P := c_locale no_popen) (lit "Key Content:" ++ [newline]) []
  = Ok (Break []) /\
  line_yields (P := c_locale no_popen)
    (lit "Key Content : hunter2" ++ [newline]) (lit " hunter2" ++ [newline]) /\
  value_of (P := c_locale no_popen) (lit " hunter2" ++ [newline])
  = L "hunter2" /\
  parse_netsh_output (P := c_locale no_popen)
    (lit "Key Content:" ++ [newline] ++ lit "Key Content : hunter2"
       ++ [newline])
  = Ok [] /\
  Ok (L "hunter2") <> Ok (@nil wchar_t).
Proof.
  split; [reflexivity|].
  split; [left; apply find_Some_iff; reflexivity|].
  split; [apply find_Some_iff; reflexivity|].
  split; [reflexivity|].
  split; [reflexivity|].
  split.
  { exists 0. split; [left; apply find_Some_iff; reflexivity|].
    exists 12. split; [apply find_Some_iff; reflexivity|].
    split; [cbn; lia | reflexivity]. }
  split; [reflexivity|].
  split; [reflexivity | discriminate].
Qed.

(** C8, amended.  Lines are taken as the loop reads them, the terminating
    newline being a byte of the line.  A line that contains a label but has
    no colon from the label on, or whose first such colon is the last byte
    of the line as read (so a line without a newline behind the colon),
    yields nothing and lets the loop go on.  A line that ends with its
    newline and has a label and a colon from the label on always ends the
    loop, with the value of the text behind the colon, which is empty when
    that text is blank.  The value returned is the one of the first line
    that has a label, a colon from the label on, and at least one byte
    after that colon, the newline counting as one; this holds in
    particular for a text that begins with newline-terminated lines, each
    shorter than 511 bytes and free of NUL bytes. *)
Theorem fallback_skips_label_lines_without_value :
  forall P : Platform,
    (forall (line : cstring) (found : wstring) (pos : nat),
        label_start line pos ->
        absent_from [colon] line pos \/
        (exists col, first_at [colon] line pos col /\
                     col + 1 = length line) ->
        (forall V, ~ line_yields line V) /\
        scan_line line found = Ok Continue) /\
    (forall (l : cstring) (pos col : nat),
        label_start (l ++ [newline]) pos ->
        first_at [colon] (l ++ [newline]) pos col ->
        scan_line (l ++ [newline]) []
        = Ok (Break (value_of (skipn (col + 1) (l ++ [newline]))))) /\
    (forall (text : cstring) (pre : list cstring) (l : cstring)
            (post : list cstring) (V : cstring),
        lines_read text = pre ++ l :: post ->
        (forall l', In l' pre -> forall V', ~ line_yields l' V') ->
        line_yields l V ->
        parse_netsh_output text = Ok (value_of V)) /\
    (forall (pre : list cstring) (l rest : cstring) (pos col : nat),
        Forall plain_line pre -> plain_line l ->
        (forall l', In l' pre ->
                    ~ has_label (l' ++ [newline]) \/
                    exists pos', label_start (l' ++ [newline]) pos' /\
                                 absent_from [colon] (l' ++ [newline]) pos') ->
        label_start (l ++ [newline]) pos ->
        first_at [colon] (l ++ [newline]) pos col ->
        parse_netsh_output (unlines pre ++ (l ++ [newline]) ++ rest)
        = Ok (value_of (skipn (col + 1) (l ++ [newline])))).
Proof.
  intros P. split; [|split; [|split]].
  - intros line found pos Hpos Hcolon.
    pose proof (label_line_without_value line pos Hpos Hcolon) as Hno.
    split; [exact Hno | now apply scan_line_skips].
  - intros l pos col Hpos Hcol.
    apply scan_line_yields_nil. now apply (terminated_line_yields l pos col).
  - intros text pre l post V Hlines Hpre Hl.
    rewrite parse_netsh_output_scan, Hlines.
    now apply scan_lines_first.
  - intros pre l rest pos col Hplain Hl Hpre Hpos Hcol.
    apply parse_unlines_first; try assumption.
    + intros l' Hin. destruct (Hpre l' Hin) as [Hnl | (pos' & Hp' & Habs)].
      * now apply no_label_no_yield.
      * apply (label_line_without_value _ pos' Hp'). now left.
    + now apply (terminated_line_yields l pos col).
Qed.

Lemma fallback_skips_label_lines_without_value_witness :
  scan_line (P := c_locale no_popen) (lit "Key Content:") [] = Ok Continue /\
  scan_line (P := c_locale no_popen) (lit "Key Content:" ++ [newline]) []
  = Ok (Break []) /\
  parse_netsh_output (P := c_locale no_popen)
    (lit "Key Content" ++ [newline] ++ lit "Key Content : hunter2"
       ++ [newline] ++ lit "Key Content : other" ++ [newline])
  = Ok (L "hunter2") /\
  parse_netsh_output (P := c_locale no_popen)
    (unlines [lit "SSID name : Home"; lit "Key Content"]
       ++ (lit "Key Content : hunter2" ++ [newline])
       ++ lit "Key Content : other")
  = Ok (L "hunter2").
Proof.
  destruct (fallback_skips_label_lines_without_value (c_locale no_popen))
    as (Hskip & Hstop & Hfirst & Htext).
  split; [|split; [|split]].
  - apply (Hskip (lit "Key Content:") [] 0).
    + left. apply find_Some_iff. reflexivity.
    + right. exists 11. split; [apply find_Some_iff|]; reflexivity.
  - refine (eq_trans (Hstop (lit "Key Content:") 0 11 _ _) eq_refl).
    + left. apply find_Some_iff. reflexivity.
    + apply find_Some_iff. reflexivity.
  - refine (eq_trans
              (Hfirst (lit "Key Content" ++ [newline]
                         ++ lit "Key Content : hunter2" ++ [newline]
                         ++ lit "Key Content : other" ++ [newline])
                 [lit "Key Content" ++ [newline]]
                 (lit "Key Content : hunter2" ++ [newline])
                 [lit "Key Content : other" ++ [newline]]
                 (lit " hunter2" ++ [newline]) eq_refl _ _) eq_refl).
    + intros l' Hin. apply (Hskip l' [] 0).
      * destruct Hin as [<-|[]]. left. apply find_Some_iff. reflexivity.
      * destruct Hin as [<-|[]]. left.
        apply find_None_iff. reflexivity.
    + exists 0. split; [left; apply find_Some_iff; reflexivity|].
      exists 12. split; [apply find_Some_iff; reflexivity|].
      split; [cbn; lia | reflexivity].
  - refine (eq_trans
              (Htext [lit "SSID name : Home"; lit "Key Content"]
                 (lit "Key Content : hunter2") (lit "Key Content : other")
                 0 12 _ _ _ _ _) eq_refl).
    + constructor; [plain_literal|].
      constructor; [plain_literal | constructor].
    + plain_literal.
    + intros l' [<-|[<-|[]]].
      * left. apply label_pos_None. reflexivity.
      * right. exists 0. split; [left; apply find_Some_iff; reflexivity|].
        apply find_None_iff. reflexivity.
    + left. apply find_Some_iff. reflexivity.
    + apply find_Some_iff. reflexivity.
Defined.



(** C2, as the specification states it, fails: in the text below the first
    line that contains a label has no colon at all, and the extractor still
    returns the value of the second line. *)
Lemma fallback_first_label_line_counterexample :
  lines_read (lit "Key Content" ++ [newline]
                ++ lit "Key Content : hunter2" ++ [newline])
  = [lit "Key Content" ++ [newline];
     lit "Key Content : hunter2" ++ [newline]] /\
  has_label (P := c_locale no_popen) (lit "Key Content" ++ [newline]) /\
  (forall pos,
      label_start (P := c_locale no_popen) (lit "Key Content" ++ [newline]) pos ->
      absent_from [colon] (lit "Key Content" ++ [newline]) pos) /\
  parse_netsh_output (P := c_locale no_popen)
    (lit "Key Content" ++ [newline] ++ lit "Key Content : hunter2" ++ [newline])
  = Ok (L "hunter2") /\
  Ok (L "hunter2") <> Ok (@nil wchar_t).
Proof.
  split; [reflexivity|].
  split; [left; exists 0; split; [cbn; lia | reflexivity]|].
  split; [|split; [reflexivity | discriminate]].
  intros pos Hpos.
  assert (pos = 0) as ->.
  { apply label_pos_Some in Hpos. cbv in Hpos. congruence. }
  apply find_None_iff. reflexivity.
Qed.

(** C2, amended.  Lines are taken as the loop reads them, the terminating
    newline being a byte of the line.  The result is decided by the first
    line that has a label and, from the label on, a colon followed by at
    least one byte (the newline counting as one): it is the value of the
    text behind that colon, whatever lines stand before it, lines with a
    label but without such a colon among them, and whatever lines follow,
    which are not looked at; when no line is such a line the result is
    "not found".  This holds in particular for a text that begins with
    newline-terminated lines, each shorter than 511 bytes and free of NUL
    bytes. *)
Theorem fallback_first_yielding_line_decides :
  forall P : Platform,
    (forall (text1 text2 : cstring) (pre1 pre2 : list cstring) (l : cstring)
            (post1 post2 : list cstring) (V : cstring),
        lines_read text1 = pre1 ++ l :: post1 ->
        lines_read text2 = pre2 ++ l :: post2 ->
        (forall l', In l' pre1 -> forall V', ~ line_yields l' V') ->
        (forall l', In l' pre2 -> forall V', ~ line_yields l' V') ->
        line_yields l V ->
        parse_netsh_output text1 = Ok (value_of V) /\
        parse_netsh_output text2 = Ok (value_of V)) /\
    (forall (line : cstring) (pos : nat),
        label_start line pos ->
        absent_from [colon] line pos \/
        (exists col, first_at [colon] line pos col /\
                     col + 1 = length line) ->
        forall V, ~ line_yields line V) /\
    (forall (pre : list cstring) (l rest1 rest2 : cstring) (pos col : nat),
        Forall plain_line pre -> plain_line l ->
        (forall l', In l' pre ->
                    ~ has_label (l' ++ [newline]) \/
                    exists pos', label_start (l' ++ [newline]) pos' /\
                                 absent_from [colon] (l' ++ [newline]) pos') ->
        label_start (l ++ [newline]) pos ->
        first_at [colon] (l ++ [newline]) pos col ->
        parse_netsh_output (unlines pre ++ (l ++ [newline]) ++ rest1)
        = Ok (value_of (skipn (col + 1) (l ++ [newline]))) /\
        parse_netsh_output ((l ++ [newline]) ++ rest2)
        = Ok (value_of (skipn (col + 1) (l ++ [newline])))) /\
    (forall text : cstring,
        (forall l, In l (lines_read text) -> forall V, ~ line_yields l V) ->
        parse_netsh_output text = Ok []).
Proof.
  intros P. split; [|split; [|split]].
  - intros text1 text2 pre1 pre2 l post1 post2 V H1 H2 Hpre1 Hpre2 Hl.
    rewrite !parse_netsh_output_scan, H1, H2.
    rewrite (scan_lines_first pre1 l post1 V Hpre1 Hl).
    rewrite (scan_lines_first pre2 l post2 V Hpre2 Hl).
    split; reflexivity.
  - intros line pos Hpos Hcolon. now apply (label_line_without_value line pos).
  - intros pre l rest1 rest2 pos col Hplain Hl Hpre Hpos Hcol.
    pose proof (terminated_line_yields l pos col Hpos Hcol) as Hy.
    split.
    + apply parse_unlines_first; try assumption.
      intros l' Hin. destruct (Hpre l' Hin) as [Hnl | (pos' & Hp' & Habs)].
      * now apply no_label_no_yield.
      * apply (label_line_without_value _ pos' Hp'). now left.
    + apply (parse_unlines_first [] l rest2); try assumption.
      * constructor.
      * intros l' [].
  - intros text Hno. rewrite parse_netsh_output_scan.
    now apply scan_lines_none.
Qed.

Lemma fallback_first_yielding_line_decides_witness :
  parse_netsh_output (P := c_locale no_popen)
    (lit "Key Content" ++ [newline] ++ lit "Key Content : hunter2"
       ++ [newline] ++ lit "Key Content : other" ++ [newline])
  = Ok (L "hunter2") /\
  parse_netsh_output (P := c_locale no_popen)
    (lit "Key Content : hunter2" ++ [newline])
  = Ok (L "hunter2") /\
  parse_netsh_output (P := c_locale no_popen)
    (unlines [lit "Key Content"]
       ++ (lit "Key Content : hunter2" ++ [newline])
       ++ lit "Key Content : other")
  = Ok (L "hunter2") /\
  parse_netsh_output (P := c_locale no_popen)
    (lit "Key Content" ++ [newline]) = Ok [].
Proof.
  destruct (fallback_first_yielding_line_decides (c_locale no_popen))
    as (Hsame & Hbad & Htext & Hnone).
  assert (Hy : line_yields (P := c_locale no_popen)
                 (lit "Key Content : hunter2" ++ [newline])
                 (lit " hunter2" ++ [newline])).
  { exists 0. split; [left; apply find_Some_iff; reflexivity|].
    exists 12. split; [apply find_Some_iff; reflexivity|].
    split; [cbn; lia | reflexivity]. }
  assert (Hskip : forall V, ~ line_yields (P := c_locale no_popen)
                                (lit "Key Content" ++ [newline]) V).
  { apply (Hbad _ 0).
    - left. apply find_Some_iff. reflexivity.
    - left. apply find_None_iff. reflexivity. }
  destruct (Hsame
              (lit "Key Content" ++ [newline] ++ lit "Key Content : hunter2"
                 ++ [newline] ++ lit "Key Content : other" ++ [newline])
              (lit "Key Content : hunter2" ++ [newline])
              [lit "Key Content" ++ [newline]] []
              (lit "Key Content : hunter2" ++ [newline])
              [lit "Key Content : other" ++ [newline]] []
              (lit " hunter2" ++ [newline]) eq_refl eq_refl)
    as [Hr1 Hr2].
  { intros l' [<-|[]]. exact Hskip. }
  { intros l' []. }
  { exact Hy. }
  split; [exact Hr1|]. split; [exact Hr2|]. split.
  - refine (eq_trans
              (proj1 (Htext [lit "Key Content"] (lit "Key Content : hunter2")
                        (lit "Key Content : other") [] 0 12 _ _ _ _ _))
              eq_refl).
    + constructor; [plain_literal | constructor].
    + plain_literal.
    + intros l' [<-|[]]. right. exists 0.
      split; [left; apply find_Some_iff; reflexivity|].
      apply find_None_iff. reflexivity.
    + left. apply find_Some_iff. reflexivity.
    + apply find_Some_iff. reflexivity.
  - apply Hnone. intros l [<-|[]]. exact Hskip.
Defined.

(** C4. Per profile: when the descriptor is there and [extractKeyMaterial]
    gives a non-empty value, that value is the password and the fallback is
    not called; otherwise the fallback is called, on the text netsh writes,
    and its value is the password when it is non-empty; otherwise the
    profile is reported as not available.  Each extractor is called at most
    once. *)
Theorem resolve_password_two_tier :
  forall (P : Platform) (descriptor : option wstring) (name : wstring),
    (forall xml v,
        descriptor = Some xml -> extractKeyMaterial xml = Ok v -> v <> [] ->
        resolve_password descriptor name
        = Ok ([CallExtractKeyMaterial], Pass v)) /\
    (forall calls,
        (descriptor = None /\ calls = []) \/
        (exists xml, descriptor = Some xml /\
                     extractKeyMaterial xml = Ok [] /\
                     calls = [CallExtractKeyMaterial]) ->
        (forall v, try_netsh_parse name = Ok v -> v <> [] ->
                   resolve_password descriptor name
                   = Ok (calls ++ [CallNetshParse], Pass v)) /\
        (try_netsh_parse name = Ok [] ->
         resolve_password descriptor name
         = Ok (calls ++ [CallNetshParse], NotAvailable))) /\
    (forall text, _popen (netsh_command name) = Some text ->
                  try_netsh_parse name = parse_netsh_output text) /\
    (_popen (netsh_command name) = None -> try_netsh_parse name = Ok []) /\
    (exists calls verdict,
        resolve_password descriptor name = Ok (calls, verdict) /\
        NoDup calls).
Proof.
  intros P descriptor name.
  assert (Htry : exists w, try_netsh_parse name = Ok w).
  { unfold try_netsh_parse. destruct (_popen (netsh_command name)) as [text|].
    - destruct (parse_netsh_output_total text) as [s Hs]. eauto.
    - eauto. }
  assert (Hnd1 : NoDup [CallExtractKeyMaterial])
    by (constructor; [intros [] | constructor]).
  assert (Hnd2 : NoDup [CallNetshParse])
    by (constructor; [intros [] | constructor]).
  assert (Hnd3 : NoDup [CallExtractKeyMaterial; CallNetshParse]).
  { constructor; [intros [Heq|[]]; discriminate Heq | exact Hnd2]. }
  split; [|split; [|split; [|split]]].
  - intros xml v -> Hx Hv. unfold resolve_password. rewrite Hx. cbn [bind].
    destruct v; [congruence | reflexivity].
  - intros calls Hcase. split.
    + intros v Hv Hne. unfold resolve_password.
      destruct Hcase as [[-> ->] | (xml & -> & Hx & ->)];
        [|rewrite Hx]; cbn [bind]; rewrite Hv; cbn [bind app];
        (destruct v; [congruence | reflexivity]).
    + intros Hv. unfold resolve_password.
      destruct Hcase as [[-> ->] | (xml & -> & Hx & ->)];
        [|rewrite Hx]; cbn [bind]; rewrite Hv; reflexivity.
  - intros text Ht. unfold try_netsh_parse. now rewrite Ht.
  - intros Hn. unfold try_netsh_parse. now rewrite Hn.
  - destruct Htry as [w Hw]. unfold resolve_password.
    destruct descriptor as [xml|].
    + destruct (extract_total xml) as [s Hs]. rewrite Hs. cbn [bind].
      destruct (strip iswspace s) as [|c r].
      * rewrite Hw. cbn [bind app]. destruct w; eauto.
      * cbn [bind]. eauto.
    + cbn [bind]. rewrite Hw. cbn [bind app]. destruct w; eauto.
Qed.

Lemma resolve_password_two_tier_witness :
  resolve_password
    (P := c_locale (popen_const (lit "Key Content : hunter2" ++ [newline])))
    (Some (L "<keyMaterial>secret123</keyMaterial>")) (L "Home")
  = Ok ([CallExtractKeyMaterial], Pass (L "secret123")) /\
  resolve_password
    (P := c_locale (popen_const (lit "Key Content : hunter2" ++ [newline])))
    (Some (L "<other>x</other>")) (L "Home")
  = Ok ([CallExtractKeyMaterial; CallNetshParse], Pass (L "hunter2")) /\
  resolve_password (P := c_locale no_popen) None (L "Home")
  = Ok ([CallNetshParse], NotAvailable).
Proof.
  split; [|split].
  - destruct (resolve_password_two_tier
                (c_locale (popen_const (lit "Key Content : hunter2" ++ [newline])))
                (Some (L "<keyMaterial>secret123</keyMaterial>")) (L "Home"))
      as (Hhit & _).
    apply (Hhit (L "<keyMaterial>secret123</keyMaterial>"));
      [reflexivity | reflexivity | discriminate].
  - destruct (resolve_password_two_tier
                (c_locale (popen_const (lit "Key Content : hunter2" ++ [newline])))
                (Some (L "<other>x</other>")) (L "Home"))
      as (_ & Hfall & _).
    destruct (Hfall [CallExtractKeyMaterial]) as [Hpass _].
    { right. exists (L "<other>x</other>"). repeat split; reflexivity. }
    apply Hpass; [reflexivity | discriminate].
  - destruct (resolve_password_two_tier (c_locale no_popen) None (L "Home"))
      as (_ & Hfall & _).
    destruct (Hfall []) as [_ Hnone].
    { left. split; reflexivity. }
    apply Hnone. reflexivity.
Defined.

(** C6. Whatever the input, each extractor returns a value and does not
    throw; the value is either empty ("nothing") or a non-empty string with
    no whitespace at its start and none at its end; and trimming the value
    again gives the value back. *)
Theorem extractors_return_trimmed_or_nothing :
  forall P : Platform,
    (forall xml : wstring,
        exists r, extractKeyMaterial xml = Ok r /\
                  (r = [] \/ (r <> [] /\ tight iswspace r)) /\
                  trim_w r = Ok r) /\
    (forall text : cstring,
        exists r, parse_netsh_output text = Ok r /\
                  (r = [] \/ (r <> [] /\ tight iswspace r)) /\
                  trim_w r = Ok r) /\
    (forall name : wstring,
        exists r, try_netsh_parse name = Ok r /\
                  (r = [] \/ (r <> [] /\ tight iswspace r)) /\
                  trim_w r = Ok r).
Proof.
  intros P.
  assert (Hshape : forall s : wstring,
             (strip iswspace s = [] \/
              (strip iswspace s <> [] /\ tight iswspace (strip iswspace s))) /\
             trim_w (strip iswspace s) = Ok (strip iswspace s)).
  { intros s. split.
    - destruct (strip iswspace s) as [|c r] eqn:Hs; [now left|].
      right. split; [discriminate|]. rewrite <- Hs. apply strip_tight.
    - rewrite trim_w_strip. f_equal. apply strip_idempotent. }
  split; [|split].
  - intros xml. destruct (extract_total xml) as [s Hs].
    exists (strip iswspace s). split; [exact Hs | apply Hshape].
  - intros text. destruct (parse_netsh_output_total text) as [s Hs].
    exists (strip iswspace s). split; [exact Hs | apply Hshape].
  - intros name. unfold try_netsh_parse.
    destruct (_popen (netsh_command name)) as [text|].
    + destruct (parse_netsh_output_total text) as [s Hs].
      exists (strip iswspace s). split; [exact Hs | apply Hshape].
    + exists []. split; [reflexivity|]. split; [now left | reflexivity].
Qed.

(** C7. Both extractors are functions of the text alone and leave it as it
    was.  With the input held as an object in memory: the result is the
    value of the pure extractor on the text of that object, whatever else
    the store holds; a second run, on the store the first run left, returns
    the same result; and after each run the input object holds the text it
    held before. *)
Theorem extractors_are_pure :
  forall P : Platform,
    (forall (h : heap) (xml : addr),
        xml < length h ->
        let run1 := extractKeyMaterial_st h xml in
        let run2 := extractKeyMaterial_st (fst run1) xml in
        snd run1 = extractKeyMaterial (load h xml) /\
        snd run2 = snd run1 /\
        load (fst run1) xml = load h xml /\
        load (fst run2) xml = load h xml) /\
    (forall (h : heap) (text buf : addr),
        text < length h -> buf < length h -> text <> buf ->
        let run1 := parse_netsh_output_st h text buf in
        let run2 := parse_netsh_output_st (fst run1) text buf in
        snd run1 = parse_netsh_output (load h text) /\
        snd run2 = snd run1 /\
        load (fst run1) text = load h text /\
        load (fst run2) text = load h text).
Proof.
  intros P. split.
  - intros h xml Hx run1 run2.
    destruct (extractKeyMaterial_st_spec h xml Hx) as [Hr1 [Hlen1 Hold1]].
    fold run1 in Hr1, Hlen1, Hold1.
    assert (Hx1 : xml < length (fst run1)) by lia.
    destruct (extractKeyMaterial_st_spec (fst run1) xml Hx1)
      as [Hr2 [_ Hold2]].
    fold run2 in Hr2, Hold2.
    pose proof (Hold1 xml Hx) as Hsame1.
    pose proof (Hold2 xml Hx1) as Hsame2.
    repeat split.
    + exact Hr1.
    + rewrite Hr2, Hr1, Hsame1. reflexivity.
    + exact Hsame1.
    + rewrite Hsame2. exact Hsame1.
  - intros h text buf Ht Hb Hne run1 run2.
    destruct (read_loop_st_spec (S (length (load h text))) h text 0 buf []
                Ht Hb Hne) as (Hr1 & Hlen1 & Hold1).
    fold (parse_netsh_output_st h text buf) in Hr1, Hlen1, Hold1.
    fold run1 in Hr1, Hlen1, Hold1.
    assert (Ht1 : text < length (fst run1)) by lia.
    assert (Hb1 : buf < length (fst run1)) by lia.
    destruct (read_loop_st_spec (S (length (load (fst run1) text)))
                (fst run1) text 0 buf [] Ht1 Hb1 Hne) as (Hr2 & _ & Hold2).
    fold (parse_netsh_output_st (fst run1) text buf) in Hr2, Hold2.
    fold run2 in Hr2, Hold2.
    pose proof (Hold1 text Ht Hne) as Hsame1.
    pose proof (Hold2 text Ht1 Hne) as Hsame2.
    cbn [skipn] in Hr1, Hr2.
    repeat split.
    + exact Hr1.
    + rewrite Hr2, Hr1, Hsame1. reflexivity.
    + exact Hsame1.
    + rewrite Hsame2. exact Hsame1.
Qed.

Lemma extractors_are_pure_witness :
  snd (extractKeyMaterial_st (P := c_locale no_popen)
         (fst (extractKeyMaterial_st (P := c_locale no_popen)
                 [L "<KeyMaterial> seCret </KeyMaterial>"] 0)) 0)
  = snd (extractKeyMaterial_st (P := c_locale no_popen)
           [L "<KeyMaterial> seCret </KeyMaterial>"] 0) /\
  load (fst (extractKeyMaterial_st (P := c_locale no_popen)
               [L "<KeyMaterial> seCret </KeyMaterial>"] 0)) 0
  = L "<KeyMaterial> seCret </KeyMaterial>" /\
  snd (parse_netsh_output_st (P := c_locale no_popen)
         (fst (parse_netsh_output_st (P := c_locale no_popen)
                 [lit "Key Content : Hunter2"; []] 0 1)) 0 1)
  = snd (parse_netsh_output_st (P := c_locale no_popen)
           [lit "Key Content : Hunter2"; []] 0 1) /\
  load (fst (parse_netsh_output_st (P := c_locale no_popen)
               [lit "Key Content : Hunter2"; []] 0 1)) 0
  = lit "Key Content : Hunter2".
Proof.
  destruct (extractors_are_pure (c_locale no_popen)) as [Hx Hf].
  destruct (Hx [L "<KeyMaterial> seCret </KeyMaterial>"] 0)
    as (_ & Hsame & Hkept & _); [cbn; lia|].
  destruct (Hf [lit "Key Content : Hunter2"; []] 0 1)
    as (_ & Hsame' & Hkept' & _); [cbn; lia | cbn; lia | discriminate |].
  repeat split; assumption.
Defined.

(* ========================================================================= *)
(** * Further properties of the code *)

(* ------------------------------------------------------------------------- *)
(** ** [trim_w] and [tolower_w] *)

Section trim_more.
Context {C : Type} `{CharT C}.
Variable is_space : C -> bool.

Lemma strip_all_space (s : list C) :
  Forall (fun c => is_space c = true) s -> strip is_space s = [].
Proof.
  intros Hs. symmetry. apply trimmed_of_unique.
  exists s, []. cbn [app]. rewrite app_nil_r.
  repeat split; auto; discriminate.
Qed.

Lemma strip_nil_iff (s : list C) :
  strip is_space s = [] <-> Forall (fun c => is_space c = true) s.
Proof.
  split; [|apply strip_all_space].
  intros Hs. destruct (strip_trimmed_of is_space s)
    as (pre & post & Heq & Hpre & Hpost & _).
  rewrite Hs in Heq. rewrite Heq. cbn [app].
  apply Forall_app. now split.
Qed.

Lemma slice_decompose (s : list C) (a b : nat) :
  a <= b <= length s ->
  s = firstn a s ++ slice s a b ++ skipn b s.
Proof.
  intros Hab. unfold slice.
  rewrite <- (firstn_skipn a s) at 1. f_equal.
  rewrite <- (firstn_skipn (b - a) (skipn a s)) at 1. f_equal.
  rewrite skipn_skipn. f_equal. lia.
Qed.

End trim_more.

(** X1. [trim_w] never throws, and what it returns is its argument without
    the whitespace at its two ends: the argument is a run of whitespace,
    the result, and a run of whitespace, and the result neither starts nor
    ends with whitespace. *)
Theorem trim_w_removes_surrounding_whitespace :
  forall (P : Platform) (s : wstring), returns_trimmed iswspace (trim_w s) s.
Proof.
  intros P s. exists (strip iswspace s).
  split; [apply trim_w_strip | apply strip_trimmed_of].
Qed.

(** X2. Whitespace inside the text is kept: on whitespace, then a text [r]
    that neither starts nor ends with whitespace, then whitespace, [trim_w]
    returns exactly [r]; so it returns an already trimmed text unchanged. *)
Theorem trim_w_keeps_interior :
  forall (P : Platform) (pre r post : wstring),
    Forall (fun c => iswspace c = true) pre ->
    Forall (fun c => iswspace c = true) post ->
    tight iswspace r ->
    trim_w (pre ++ r ++ post) = Ok r /\ trim_w r = Ok r.
Proof.
  intros P pre r post Hpre Hpost Hr.
  rewrite !trim_w_strip. split; f_equal; symmetry.
  - apply trimmed_of_unique. exists pre, post. auto.
  - symmetry. now apply tight_strip.
Qed.

Lemma trim_w_keeps_interior_witness :
  trim_w (P := c_locale no_popen) (L "  my  pass " ++ [9%N; 10%N])
  = Ok (L "my  pass").
Proof.
  refine (proj1 (trim_w_keeps_interior (c_locale no_popen)
                   (L "  ") (L "my  pass") (L " " ++ [9%N; 10%N]) _ _ _)).
  - repeat constructor.
  - repeat constructor.
  - split; intros c [= <-]; reflexivity.
Defined.

(** X3. [trim_w] returns the empty string exactly for the strings made of
    whitespace only, the empty string among them. *)
Theorem trim_w_empty_iff_blank :
  forall (P : Platform) (s : wstring),
    trim_w s = Ok [] <-> Forall (fun c => iswspace c = true) s.
Proof.
  intros P s. rewrite trim_w_strip, <- strip_nil_iff.
  split; [intros [= Hs]; exact Hs | intros ->; reflexivity].
Qed.

(** X4. [tolower_w] works on a copy: the object it returns is a new one, of
    the length of the argument, holding [towlower] of each character in
    place, and the argument and every other object are left as they
    were. *)
Theorem tolower_w_returns_lowered_copy :
  forall (P : Platform) (h : heap) (s : addr),
    let h' := fst (tolower_w_st h s) in
    let r := snd (tolower_w_st h s) in
    r = length h /\
    length h' = S (length h) /\
    load h' r = map towlower (load h s) /\
    length (load h' r) = length (load h s) /\
    (forall i, nth_error (load h' r) i
               = option_map towlower (nth_error (load h s) i)) /\
    forall a, a < length h -> load h' a = load h a.
Proof.
  intros P h s. unfold tolower_w_st.
  destruct (alloc h (load h s)) as [h1 r1] eqn:Ha. cbn [fst snd].
  destruct (copy_transform_spec towlower h h1 (load h s) r1 Ha)
    as (Hlen & Hload & Hold).
  apply alloc_spec in Ha as (-> & _).
  repeat split; auto.
  - rewrite Hload. apply length_map.
  - intros i. rewrite Hload. apply nth_error_map.
Qed.

(* ------------------------------------------------------------------------- *)
(** ** [extractKeyMaterial] *)

(** X5. A non-empty result of [extractKeyMaterial] is a contiguous piece of
    the document itself, with at least the length of the opening marker
    before it and at least the length of the closing marker after it; a
    document shorter than the two markers together gives the empty
    result. *)
Theorem extract_key_result_inside_document :
  forall (P : Platform) (xml : wstring),
    (forall r, extractKeyMaterial xml = Ok r -> r <> [] ->
               exists before after,
                 xml = before ++ r ++ after /\
                 length tag1 <= length before /\
                 length tag2 <= length after) /\
    (length xml < length tag1 + length tag2 -> extractKeyMaterial xml = Ok []).
Proof.
  intros P xml. split.
  - intros r Hr Hne.
    destruct (find (tolower_w xml) tag1 0) as [p1|] eqn:H1.
    2:{ rewrite extract_no_opening in Hr by now apply find_None_iff.
        congruence. }
    destruct (find (tolower_w xml) tag2 (p1 + length tag1)) as [p2|] eqn:H2.
    2:{ rewrite (extract_no_closing xml p1) in Hr
          by (try apply find_Some_iff; try apply find_None_iff; assumption).
        congruence. }
    destruct (extract_positions_ordered xml p1 p2 H1 H2) as [Hle Hin].
    apply find_Some_iff in H1, H2.
    rewrite (extract_found xml p1 p2 H1 H2) in Hr. injection Hr as <-.
    destruct (strip_trimmed_of iswspace (slice xml (p1 + length tag1) p2))
      as (pre & post & Hs & _).
    exists (firstn (p1 + length tag1) xml ++ pre), (post ++ skipn p2 xml).
    split; [|split].
    + rewrite (slice_decompose xml (p1 + length tag1) p2) at 1 by lia.
      rewrite Hs. now rewrite <- !app_assoc.
    + rewrite length_app, length_firstn. lia.
    + rewrite length_app, length_skipn. lia.
  - intros Hshort.
    destruct (find (tolower_w xml) tag1 0) as [p1|] eqn:H1.
    2:{ apply extract_no_opening. now apply find_None_iff. }
    destruct (find (tolower_w xml) tag2 (p1 + length tag1)) as [p2|] eqn:H2.
    2:{ apply (extract_no_closing xml p1);
          [apply find_Some_iff | apply find_None_iff]; assumption. }
    destruct (extract_positions_ordered xml p1 p2 H1 H2) as [Hle Hin]. lia.
Qed.

Lemma extract_key_result_inside_document_witness :
  (exists before after,
      L "<a><keyMaterial> pw </KEYMATERIAL></a>"
      = before ++ L "pw" ++ after /\
      length tag1 <= length before /\ length tag2 <= length after) /\
  extractKeyMaterial (P := c_locale no_popen) (L "<keyMaterial>") = Ok [].
Proof.
  destruct (extract_key_result_inside_document (c_locale no_popen)
              (L "<a><keyMaterial> pw </KEYMATERIAL></a>")) as [Hin _].
  destruct (extract_key_result_inside_document (c_locale no_popen)
              (L "<keyMaterial>")) as [_ Hshort].
  split.
  - apply Hin; [reflexivity | discriminate].
  - apply Hshort. cbn; lia.
Defined.

(** X6. When there is nothing but whitespace between the opening marker and
    the closing marker, [extractKeyMaterial] returns the empty string: an
    empty or blank key is not told apart from a missing one. *)
Theorem extract_key_blank_content_is_not_found :
  forall (P : Platform) (xml : wstring) (p1 p2 : nat),
    first_at tag1 (tolower_w xml) 0 p1 ->
    first_at tag2 (tolower_w xml) (p1 + length tag1) p2 ->
    Forall (fun c => iswspace c = true) (slice xml (p1 + length tag1) p2) ->
    extractKeyMaterial xml = Ok [].
Proof.
  intros P xml p1 p2 H1 H2 Hblank.
  rewrite (extract_found xml p1 p2 H1 H2). f_equal.
  now apply strip_all_space.
Qed.

Lemma extract_key_blank_content_is_not_found_witness :
  extractKeyMaterial (P := c_locale no_popen)
    (L "<keyMaterial>  </keyMaterial>") = Ok [] /\
  extractKeyMaterial (P := c_locale no_popen)
    (L "<keyMaterial></keyMaterial>") = Ok [].
Proof.
  split.
  - apply (extract_key_blank_content_is_not_found (c_locale no_popen) _ 0 15).
    + apply find_Some_iff. reflexivity.
    + apply find_Some_iff. reflexivity.
    + repeat constructor.
  - apply (extract_key_blank_content_is_not_found (c_locale no_popen) _ 0 13).
    + apply find_Some_iff. reflexivity.
    + apply find_Some_iff. reflexivity.
    + constructor.
Defined.

(* ------------------------------------------------------------------------- *)
(** ** The read loop of [try_netsh_parse] *)

Section reading_more.

Lemma c_str_prefix (buf : cstring) : exists t, buf = c_str buf ++ t.
Proof.
  induction buf as [|c buf [t Ht]]; cbn [c_str].
  - now exists [].
  - destruct (Ascii.eqb c nul).
    + now exists (c :: buf).
    + exists t. cbn. now rewrite <- Ht.
Qed.

Lemma c_str_no_nul (buf : cstring) : ~ In nul (c_str buf).
Proof.
  induction buf as [|c buf IH]; cbn [c_str]; [intros []|].
  destruct (Ascii.eqb_spec c nul) as [->|Hne]; [intros []|].
  intros [Hc|Hin]; [congruence | exact (IH Hin)].
Qed.

Lemma c_str_id (buf : cstring) : ~ In nul buf -> c_str buf = buf.
Proof.
  induction buf as [|c buf IH]; intros Hn; cbn [c_str]; [reflexivity|].
  destruct (Ascii.eqb_spec c nul) as [->|_].
  - exfalso. apply Hn. now left.
  - rewrite IH; [reflexivity|]. intros Hin. apply Hn. now right.
Qed.

Lemma fgets_read_shape (room : nat) (stream l r : cstring) :
  fgets_read room stream = (l, r) ->
  length l <= room /\ newline_only_last l.
Proof.
  revert stream l r; induction room as [|room IH]; intros stream l r.
  - destruct stream; cbn; intros [= <- <-]; (split; [cbn; lia|]);
      intros [|i]; discriminate.
  - destruct stream as [|c rest]; cbn [fgets_read].
    + intros [= <- <-]. split; [cbn; lia|]. intros [|i]; discriminate.
    + destruct (Ascii.eqb_spec c newline) as [->|Hne].
      * intros [= <- <-]. split; [cbn; lia|].
        intros [|[|i]]; cbn [nth_error length]; intros Hi;
          try discriminate; reflexivity.
      * destruct (fgets_read room rest) as [l' r'] eqn:Hrd.
        intros [= <- <-]. destruct (IH _ _ _ Hrd) as [Hlen Hnl].
        split; [cbn [length]; lia|].
        intros [|i]; cbn [nth_error length]; intros Hi; [congruence|].
        now rewrite (Hnl i Hi).
Qed.

Lemma fgets_shape_gen (n : nat) (pipe buf pipe' : cstring) :
  fgets n pipe = Some (buf, pipe') ->
  length buf <= n - 1 /\ newline_only_last buf.
Proof.
  unfold fgets. destruct pipe as [|c rest]; [discriminate|].
  generalize (n - 1) as room. intros room Hrd. injection Hrd as Hrd.
  exact (fgets_read_shape room (c :: rest) buf pipe' Hrd).
Qed.

Lemma fgets_shape (pipe buf pipe' : cstring) :
  fgets 512 pipe = Some (buf, pipe') ->
  buf <> [] /\ length buf <= 511 /\ newline_only_last buf.
Proof.
  intros Hg. pose proof (fgets_progress _ _ _ Hg) as [Hsplit Hlt].
  split.
  - intros ->. cbn in Hsplit. subst pipe'. lia.
  - apply fgets_shape_gen in Hg as [Hlen Hnl]. split; [lia | exact Hnl].
Qed.

Lemma fgets_read_full (room : nat) (l rest : cstring) :
  length l = room -> ~ In newline l ->
  fgets_read room (l ++ rest) = (l, rest).
Proof.
  revert room; induction l as [|c l IH]; intros room Hlen Hnl.
  - cbn in Hlen. subst room. destruct rest; reflexivity.
  - destruct room as [|room]; [discriminate|].
    cbn [app fgets_read].
    destruct (Ascii.eqb_spec c newline) as [->|_].
    + exfalso. apply Hnl. now left.
    + rewrite IH; [reflexivity | cbn in Hlen; lia |].
      intros Hin. apply Hnl. now right.
Qed.

(** A line read is a contiguous piece of the text. *)
Lemma line_in_text (pipe l : cstring) :
  In l (lines_read pipe) -> exists a b, pipe = a ++ l ++ b.
Proof.
  unfold lines_read. generalize (length pipe) as fuel.
  intros fuel; revert pipe; induction fuel as [|fuel IH]; intros pipe;
    cbn [records]; [intros []|].
  destruct (fgets 512 pipe) as [[buf pipe']|] eqn:Hg; [|intros []].
  apply fgets_progress in Hg as [-> _].
  intros [<-|Hin].
  - destruct (c_str_prefix buf) as [t Ht].
    exists [], (t ++ pipe'). cbn [app]. rewrite app_assoc, <- Ht.
    reflexivity.
  - destruct (IH pipe' Hin) as (a & b & ->).
    exists (buf ++ a), b. now rewrite <- app_assoc.
Qed.

Lemma occurs_at_shift {C : Type} (needle a s b : list C) (i : nat) :
  occurs_at needle s i -> occurs_at needle (a ++ s ++ b) (length a + i).
Proof.
  intros [Hb Hf]. split.
  - rewrite !length_app. lia.
  - rewrite skipn_app, skipn_all2 by lia. cbn [app].
    replace (length a + i - length a) with i by lia.
    rewrite skipn_app, firstn_app, length_skipn.
    replace (length needle - (length s - i)) with 0 by lia.
    cbn [firstn]. rewrite app_nil_r. exact Hf.
Qed.

Lemma occurs_at_single_in {C : Type} (c : C) (s : list C) (i : nat) :
  occurs_at [c] s i -> In c s.
Proof.
  intros [_ Hf]. apply (in_skipn i). apply (in_firstn 1).
  cbn [length] in Hf. rewrite Hf. now left.
Qed.

End reading_more.

(** X7. Whatever the text netsh wrote, every line the loop body is given is
    at most 511 bytes long, so that it fits the 512-byte buffer with its
    terminating NUL, holds no NUL, and holds a newline at most as its last
    byte.  When the text holds no NUL byte, no line is empty and the lines,
    put one after the other, are the text: nothing is lost and nothing is
    read twice. *)
Theorem read_loop_lines_partition_text :
  forall text : cstring,
    Forall (fun l => length l <= 511 /\ ~ In nul l /\ newline_only_last l)
           (lines_read text) /\
    (~ In nul text ->
     concat (lines_read text) = text /\
     Forall (fun l => l <> []) (lines_read text)).
Proof.
  assert (Hgen : forall fuel pipe,
             length pipe <= fuel ->
             Forall (fun l => length l <= 511 /\ ~ In nul l /\
                              newline_only_last l) (records fuel pipe) /\
             (~ In nul pipe ->
              concat (records fuel pipe) = pipe /\
              Forall (fun l => l <> []) (records fuel pipe))).
  { induction fuel as [|fuel IH]; intros pipe Hf.
    - destruct pipe; [|cbn in Hf; lia]. cbn. auto.
    - cbn [records].
      destruct (fgets 512 pipe) as [[buf pipe']|] eqn:Hg.
      + pose proof (fgets_shape _ _ _ Hg) as (Hne & Hlen & Hnl).
        pose proof (fgets_progress _ _ _ Hg) as [Hsplit Hlt].
        destruct (IH pipe') as [Hall Hcat]; [lia|].
        destruct (c_str_prefix buf) as [t Ht].
        assert (Hlb : length buf = length (c_str buf) + length t)
          by (rewrite <- length_app; now f_equal).
        split.
        * constructor; [|exact Hall].
          split; [|split].
          -- lia.
          -- apply c_str_no_nul.
          -- intros i Hi.
             assert (Hi' : nth_error buf i = Some newline).
             { rewrite Ht. rewrite nth_error_app1; [exact Hi|].
               apply nth_error_Some. congruence. }
             apply Hnl in Hi'.
             assert (i < length (c_str buf))
               by (apply nth_error_Some; congruence).
             lia.
        * intros Hnul. subst pipe.
          assert (Hb : ~ In nul buf)
            by (intros Hin; apply Hnul, in_or_app; now left).
          assert (Hp : ~ In nul pipe')
            by (intros Hin; apply Hnul, in_or_app; now right).
          destruct (Hcat Hp) as [Hc Hall'].
          rewrite (c_str_id buf Hb). cbn [concat]. rewrite Hc.
          split; [reflexivity | now constructor].
      + destruct pipe; [|discriminate]. cbn. auto. }
  intros text. apply Hgen. unfold lines_read. lia.
Qed.

Lemma read_loop_lines_partition_text_witness :
  lines_read (lit "SSID name : Home" ++ [newline] ++ lit "Key Content : pw")
  = [lit "SSID name : Home" ++ [newline]; lit "Key Content : pw"] /\
  concat (lines_read
            (lit "SSID name : Home" ++ [newline] ++ lit "Key Content : pw"))
  = lit "SSID name : Home" ++ [newline] ++ lit "Key Content : pw".
Proof.
  split; [reflexivity|].
  apply (proj2 (read_loop_lines_partition_text
                  (lit "SSID name : Home" ++ [newline]
                     ++ lit "Key Content : pw"))).
  intros Hin.
  repeat (destruct Hin as [Hin|Hin]; [discriminate Hin|]). exact Hin.
Defined.

(** X8. A run of 511 bytes without a newline is handed to the loop body as
    a line of its own, and reading goes on behind it: a longer line of the
    report is processed in pieces of 511 bytes. *)
Theorem read_loop_cuts_long_lines :
  forall l rest : cstring,
    length l = 511 -> ~ In newline l -> ~ In nul l ->
    lines_read (l ++ rest) = l :: lines_read rest.
Proof.
  intros l rest Hlen Hnl Hnul.
  assert (Hg : fgets 512 (l ++ rest) = Some (l, rest)).
  { unfold fgets. destruct (l ++ rest) as [|c s] eqn:Hs.
    - destruct l; [discriminate Hlen | discriminate Hs].
    - rewrite <- Hs. f_equal. change (512 - 1) with 511.
      now apply fgets_read_full. }
  rewrite (lines_read_step _ _ _ Hg). now rewrite c_str_id.
Qed.

Lemma read_loop_cuts_long_lines_witness :
  lines_read (repeat (ascii_of_nat 32) 511 ++ lit "Key Content : pw" ++ [newline])
  = [repeat (ascii_of_nat 32) 511; lit "Key Content : pw" ++ [newline]].
Proof.
  refine (eq_trans
            (read_loop_cuts_long_lines (repeat (ascii_of_nat 32) 511)
               (lit "Key Content : pw" ++ [newline]) _ _ _) _).
  - apply repeat_length.
  - intros Hin. apply repeat_spec in Hin. discriminate Hin.
  - intros Hin. apply repeat_spec in Hin. discriminate Hin.
  - reflexivity.
Defined.

(** X9. When the text netsh wrote holds no colon at all, the fallback
    extractor finds nothing, whatever labels the text holds. *)
Theorem fallback_needs_a_colon :
  forall (P : Platform) (text : cstring),
    ~ In colon text -> parse_netsh_output text = Ok [].
Proof.
  intros P text Hno. rewrite parse_netsh_output_scan.
  apply scan_lines_none.
  intros l Hl V (pos & _ & col & (_ & Hocc & _) & _).
  apply Hno. apply occurs_at_single_in in Hocc.
  destruct (line_in_text text l Hl) as (a & b & ->).
  apply in_or_app. right. apply in_or_app. now left.
Qed.

Lemma fallback_needs_a_colon_witness :
  parse_netsh_output (P := c_locale no_popen)
    (lit "Key Content  hunter2" ++ [newline]) = Ok [].
Proof.
  apply fallback_needs_a_colon.
  intros Hin.
  repeat (destruct Hin as [Hin|Hin]; [discriminate Hin|]). exact Hin.
Defined.

(** X10. When neither label occurs anywhere in the lowered text netsh
    wrote, the fallback extractor finds nothing: cutting the text into
    lines creates no label. *)
Theorem fallback_needs_a_label :
  forall (P : Platform) (text : cstring),
    (forall i, ~ occurs_at label_en (map tolower text) i) ->
    (forall i, ~ occurs_at label_ja (map tolower text) i) ->
    parse_netsh_output text = Ok [].
Proof.
  intros P text Hen Hja. rewrite parse_netsh_output_scan.
  apply scan_lines_none.
  intros l Hl. apply no_label_no_yield.
  destruct (line_in_text text l Hl) as (a & b & ->).
  rewrite !map_app in Hen, Hja.
  intros [[i Hi] | [i Hi]].
  - apply (Hen (length (map tolower a) + i)). now apply occurs_at_shift.
  - apply (Hja (length (map tolower a) + i)). now apply occurs_at_shift.
Qed.

Lemma fallback_needs_a_label_witness :
  parse_netsh_output (P := c_locale no_popen)
    (lit "SSID name : Home" ++ [newline] ++ lit "Cipher : CCMP" ++ [newline])
  = Ok [].
Proof.
  apply fallback_needs_a_label.
  - intros i.
    refine (proj1 (find_None_iff _ _ 0) _ i (Nat.le_0_l _)). reflexivity.
  - intros i.
    refine (proj1 (find_None_iff _ _ 0) _ i (Nat.le_0_l _)). reflexivity.
Defined.

(** X11. The first line with a label, a colon and text after the colon ends
    the scan even when that text is blank: with a conversion that turns the
    empty string into the empty string, the result is then empty, and a
    key on a later line is not looked at. *)
Theorem fallback_blank_value_ends_scan :
  forall (P : Platform) (text : cstring) (pre : list cstring) (l : cstring)
         (post : list cstring) (V : cstring),
    MultiByteToWideChar [] = [] ->
    lines_read text = pre ++ l :: post ->
    (forall l', In l' pre -> forall V', ~ line_yields l' V') ->
    line_yields l V ->
    Forall (fun c => isspace c = true) V ->
    parse_netsh_output text = Ok [].
Proof.
  intros P text pre l post V Hmb Hlines Hpre Hl Hblank.
  rewrite parse_netsh_output_scan, Hlines.
  rewrite (scan_lines_first pre l post V Hpre Hl).
  unfold value_of. rewrite (strip_all_space isspace V Hblank), Hmb.
  reflexivity.
Qed.

Lemma fallback_blank_value_ends_scan_witness :
  parse_netsh_output (P := c_locale no_popen)
    (lit "Key Content : " ++ [newline] ++ lit "Key Content : hunter2"
       ++ [newline]) = Ok [].
Proof.
  apply (fallback_blank_value_ends_scan (c_locale no_popen)
           (lit "Key Content : " ++ [newline] ++ lit "Key Content : hunter2"
              ++ [newline])
           [] (lit "Key Content : " ++ [newline])
           [lit "Key Content : hunter2" ++ [newline]]
           (lit " " ++ [newline])).
  - reflexivity.
  - reflexivity.
  - intros l' [].
  - exists 0. split; [left; apply find_Some_iff; reflexivity|].
    exists 12. split; [apply find_Some_iff; reflexivity|].
    split; [cbn; lia | reflexivity].
  - repeat constructor.
Defined.

(** X12. The profile name goes into the netsh command as it is, between two
    double quotes and without escaping: the command holds two double quotes
    more than the converted name does. *)
Theorem netsh_command_does_not_escape :
  forall (P : Platform) (profileName : wstring),
    count_occ ascii_dec (netsh_command profileName) dquote
    = 2 + count_occ ascii_dec (wide_to_utf8 profileName) dquote /\
    exists before after,
      netsh_command profileName
      = before ++ wide_to_utf8 profileName ++ after /\
      last before nul = dquote /\ hd nul after = dquote.
Proof.
  intros P profileName. unfold netsh_command. split.
  - rewrite !count_occ_app.
    change (count_occ ascii_dec (lit "netsh wlan show profile name=") dquote)
      with 0.
    change (count_occ ascii_dec [dquote] dquote) with 1.
    change (count_occ ascii_dec (lit " key=clear 2>&1") dquote) with 0.
    unfold char. lia.
  - exists (lit "netsh wlan show profile name=" ++ [dquote]),
           ([dquote] ++ lit " key=clear 2>&1").
    split; [now rewrite <- !app_assoc|]. split; reflexivity.
Qed.

(* ------------------------------------------------------------------------- *)
(** ** [wmain] *)

Section wmain_facts.
Context {P : Platform}.

Lemma resolve_password_total (descriptor : option wstring) (name : wstring) :
  exists calls r, resolve_password descriptor name = Ok (calls, r).
Proof.
  assert (Htry : exists w, try_netsh_parse name = Ok w).
  { unfold try_netsh_parse. destruct (_popen (netsh_command name)) as [text|].
    - destruct (parse_netsh_output_total text) as [s Hs]. eauto.
    - eauto. }
  destruct Htry as [w Hw]. unfold resolve_password.
  destruct descriptor as [xml|].
  - destruct (extract_total xml) as [s Hs]. rewrite Hs. cbn [bind].
    destruct (strip iswspace s) as [|c r].
    + rewrite Hw. cbn [bind app]. destruct w; eauto.
    + cbn [bind]. eauto.
  - cbn [bind]. rewrite Hw. cbn [bind app]. destruct w; eauto.
Qed.

Lemma freed_app (a b : list event) : freed (a ++ b) = freed a ++ freed b.
Proof.
  induction a as [|e a IH]; [reflexivity|].
  destruct e; cbn [app freed]; rewrite IH; reflexivity.
Qed.

Lemma is_verdict_verdict_event (r : report) :
  is_verdict (verdict_event r) = true.
Proof. destruct r; reflexivity. Qed.

Lemma is_filters_verdict_event (r : report) :
  is_header (verdict_event r) = false /\
  is_close (verdict_event r) = false /\
  is_pause (verdict_event r) = false /\
  freed [verdict_event r] = [].
Proof. destruct r; repeat split. Qed.

(** The events of one profile. *)
Lemma profile_events_ok (i j : nat) (p : profile_info) :
  exists ev e,
    profile_events i j p = Ok ev /\
    verdict_of p e /\
    filter is_verdict ev = [e] /\
    filter is_header ev = [] /\
    filter is_close ev = [] /\
    filter is_pause ev = [] /\
    freed ev = match descriptor_of (WlanGetProfile p) with
               | Some _ => [BlkProfileXml i j]
               | None => []
               end.
Proof.
  destruct (resolve_password_total (descriptor_of (WlanGetProfile p))
              (strProfileName p)) as (calls & r & Hr).
  unfold profile_events. rewrite Hr. cbn [bind].
  eexists. exists (verdict_event r).
  split; [reflexivity|].
  split; [exists calls, r; auto|].
  destruct (is_filters_verdict_event r) as (Hh & Hc & Hp & Hf).
  pose proof (is_verdict_verdict_event r) as Hv.
  destruct (descriptor_of (WlanGetProfile p));
    cbn [app filter is_verdict is_header is_close is_pause freed];
    rewrite ?Hh, ?Hc, ?Hp, ?Hv;
    repeat split; try reflexivity;
    destruct r; reflexivity.
Qed.

Lemma profile_loop_ok (ps : list profile_info) (i j : nat) :
  exists ev,
    profile_loop i j ps = Ok ev /\
    Forall2 verdict_of ps (filter is_verdict ev) /\
    filter is_header ev = [] /\
    filter is_close ev = [] /\
    filter is_pause ev = [] /\
    NoDup (freed ev) /\
    forall b, In b (freed ev) <->
              exists k p xml,
                b = BlkProfileXml i (j + k) /\
                nth_error ps k = Some p /\
                descriptor_of (WlanGetProfile p) = Some xml.
Proof.
  revert j; induction ps as [|p ps IH]; intros j.
  - exists []. cbn. repeat split; try constructor.
    + intros [].
    + intros (k & q & xml & _ & Hk & _). destruct k; discriminate.
  - destruct (profile_events_ok i j p)
      as (ev1 & e & He1 & Hv1 & Hfv & Hfh & Hfc & Hfp & Hfr).
    destruct (IH (S j)) as (ev2 & He2 & Hv2 & Hh2 & Hc2 & Hp2 & Hnd & Hin).
    exists (ev1 ++ ev2). cbn [profile_loop]. rewrite He1, He2. cbn [bind].
    rewrite !filter_app, freed_app, Hfv, Hfh, Hfc, Hfp, Hh2, Hc2, Hp2, Hfr.
    split; [reflexivity|].
    split; [cbn [app]; now constructor|].
    repeat (split; [reflexivity|]).
    assert (Hfresh : ~ In (BlkProfileXml i j) (freed ev2)).
    { intros Hb. apply Hin in Hb as (k & q & xml & [= Hk] & _). lia. }
    split.
    + destruct (descriptor_of (WlanGetProfile p)); cbn [app];
        [now constructor | exact Hnd].
    + intros b. split.
      * intros Hb. apply in_app_or in Hb as [Hb|Hb].
        -- destruct (descriptor_of (WlanGetProfile p)) as [xml|] eqn:Hd;
             [|destruct Hb].
           destruct Hb as [<-|[]].
           exists 0, p, xml. rewrite Nat.add_0_r. auto.
        -- apply Hin in Hb as (k & q & xml & -> & Hk & Hd).
           exists (S k), q, xml.
           split; [f_equal; lia | split; assumption].
      * intros (k & q & xml & -> & Hk & Hd). apply in_or_app.
        destruct k as [|k].
        -- left. cbn in Hk. injection Hk as <-. rewrite Hd, Nat.add_0_r.
           now left.
        -- right. apply Hin. exists k, q, xml.
           split; [f_equal; lia | split; assumption].
Qed.

Lemma interface_events_ok (i : nat) (iface : interface_info) :
  exists ev,
    interface_events i iface = Ok ev /\
    Forall2 verdict_of (listed iface) (filter is_verdict ev) /\
    filter is_header ev = [OutInterface (strInterfaceDescription iface)] /\
    filter is_close ev = [] /\
    filter is_pause ev = [] /\
    NoDup (freed ev) /\
    forall b, In b (freed ev) <->
              exists ps,
                profiles_of (WlanGetProfileList iface) = Some ps /\
                (b = BlkProfileList i \/
                 exists j p xml,
                   b = BlkProfileXml i j /\
                   nth_error ps j = Some p /\
                   descriptor_of (WlanGetProfile p) = Some xml).
Proof.
  unfold interface_events, listed.
  destruct (profiles_of (WlanGetProfileList iface)) as [ps|].
  - destruct (profile_loop_ok ps i 0)
      as (ev & He & Hv & Hh & Hc & Hp & Hnd & Hin).
    rewrite He. cbn [bind]. eexists. split; [reflexivity|].
    cbn [filter is_verdict is_header is_close is_pause freed].
    rewrite !filter_app, freed_app, Hh, Hc, Hp.
    cbn [filter is_verdict is_header is_close is_pause freed app].
    rewrite app_nil_r.
    split; [exact Hv|]. repeat (split; [reflexivity|]).
    split.
    + apply NoDup_app; [exact Hnd | constructor; [intros [] | constructor]|].
      intros b Hb [<-|[]].
      apply Hin in Hb as (k & q & xml & Hk & _). discriminate Hk.
    + intros b. split.
      * intros Hb. exists ps. split; [reflexivity|].
        apply in_app_or in Hb as [Hb|[<-|[]]]; [right | now left].
        apply Hin in Hb as (k & q & xml & -> & Hk & Hd).
        exists k, q, xml. auto.
      * intros (ps' & [= <-] & [->|(j & q & xml & -> & Hj & Hd)]);
          apply in_or_app; [right; now left | left].
        apply Hin. exists j, q, xml. auto.
  - eexists. split; [reflexivity|]. cbn.
    repeat split; try constructor.
    + intros [].
    + intros (ps & Hps & _). discriminate Hps.
Qed.

Lemma interface_loop_ok (ifs : list interface_info) (i : nat) :
  exists ev,
    interface_loop i ifs = Ok ev /\
    Forall2 verdict_of (flat_map listed ifs) (filter is_verdict ev) /\
    filter is_header ev
    = map (fun iface => OutInterface (strInterfaceDescription iface)) ifs /\
    filter is_close ev = [] /\
    filter is_pause ev = [] /\
    NoDup (freed ev) /\
    forall b, In b (freed ev) <->
              exists k iface ps,
                nth_error ifs k = Some iface /\
                profiles_of (WlanGetProfileList iface) = Some ps /\
                (b = BlkProfileList (i + k) \/
                 exists j p xml,
                   b = BlkProfileXml (i + k) j /\
                   nth_error ps j = Some p /\
                   descriptor_of (WlanGetProfile p) = Some xml).
Proof.
  revert i; induction ifs as [|iface ifs IH]; intros i.
  - exists []. cbn. repeat split; try constructor.
    + intros [].
    + intros (k & q & ps & Hk & _). destruct k; discriminate.
  - destruct (interface_events_ok i iface)
      as (ev1 & He1 & Hv1 & Hh1 & Hc1 & Hp1 & Hnd1 & Hin1).
    destruct (IH (S i)) as (ev2 & He2 & Hv2 & Hh2 & Hc2 & Hp2 & Hnd2 & Hin2).
    exists (ev1 ++ ev2). cbn [interface_loop]. rewrite He1, He2. cbn [bind].
    rewrite !filter_app, freed_app, Hh1, Hc1, Hp1, Hh2, Hc2, Hp2.
    split; [reflexivity|].
    split; [cbn [flat_map]; now apply Forall2_app|].
    repeat (split; [reflexivity|]).
    split.
    + apply NoDup_app; [exact Hnd1 | exact Hnd2 |].
      intros b Hb1 Hb2.
      apply Hin1 in Hb1 as (ps1 & _ & Hb1).
      apply Hin2 in Hb2 as (k & q & ps2 & _ & _ & Hb2).
      destruct Hb1 as [->|(j1 & p1 & x1 & -> & _)];
        destruct Hb2 as [Hb2|(j2 & p2 & x2 & Hb2 & _)];
        try discriminate Hb2; injection Hb2 as Hb2; lia.
    + intros b. split.
      * intros Hb. apply in_app_or in Hb as [Hb|Hb].
        -- apply Hin1 in Hb as (ps & Hps & Hb).
           exists 0, iface, ps. rewrite Nat.add_0_r. auto.
        -- apply Hin2 in Hb as (k & q & ps & Hk & Hps & Hb).
           exists (S k), q, ps.
           replace (i + S k) with (S i + k) by lia. auto.
      * intros (k & q & ps & Hk & Hps & Hb). apply in_or_app.
        destruct k as [|k].
        -- left. cbn in Hk. injection Hk as <-. apply Hin1.
           rewrite Nat.add_0_r in Hb. exists ps. auto.
        -- right. apply Hin2. exists k, q, ps.
           replace (S i + k) with (i + S k) by lia. auto.
Qed.

End wmain_facts.

(** X13. [wmain] always ends with an exit code and never with an exception:
    1 exactly when [WlanOpenHandle] fails, 2 exactly when the handle was
    opened and [WlanEnumInterfaces] fails or stores no list, 0 exactly when
    both succeed, whatever happens for single interfaces and profiles. *)
Theorem wmain_exit_code :
  forall (P : Platform) (w : wlan),
    exists ev code,
      wmain w = Ok (ev, code) /\
      (code = 1 <-> WlanOpenHandle w <> ERROR_SUCCESS) /\
      (code = 2 <->
       WlanOpenHandle w = ERROR_SUCCESS /\
       (fst (WlanEnumInterfaces w) <> ERROR_SUCCESS \/
        snd (WlanEnumInterfaces w) = None)) /\
      (code = 0 <->
       WlanOpenHandle w = ERROR_SUCCESS /\
       exists ifs, WlanEnumInterfaces w = (ERROR_SUCCESS, Some ifs)).
Proof.
  intros P w. unfold wmain.
  destruct (N.eqb_spec (WlanOpenHandle w) ERROR_SUCCESS) as [Ho|Ho];
    cbn [negb].
  - destruct (WlanEnumInterfaces w) as [ret [ifs|]] eqn:He; cbn [fst snd].
    + destruct (N.eqb_spec ret ERROR_SUCCESS) as [->|Hr]; cbn [negb].
      * destruct (interface_loop_ok ifs 0) as (ev & Hev & _).
        rewrite Hev. cbn [bind]. do 2 eexists. split; [reflexivity|].
        repeat split; try congruence; try discriminate; eauto.
        intros [_ [Hbad|Hbad]]; [congruence | discriminate].
      * do 2 eexists. split; [reflexivity|].
        repeat split; try congruence; try discriminate; auto.
        intros [_ (ifs' & [= Hret _])]. congruence.
    + do 2 eexists. split; [reflexivity|].
      repeat split; try congruence; try discriminate; auto.
      intros [_ (ifs' & Hbad)]. discriminate.
  - do 2 eexists. split; [reflexivity|].
    repeat split; try congruence; try discriminate; auto.
    + intros [Hbad _]. congruence.
    + intros [Hbad _]. congruence.
Qed.

(** X14. Whenever [WlanOpenHandle] succeeded the handle is closed exactly
    once, and closing it is the last thing the program does, but for the
    [system("pause")] of the exit with code 0; when it failed nothing is
    closed.  The pause happens exactly on the exit with code 0. *)
Theorem wmain_closes_handle_once :
  forall (P : Platform) (w : wlan) (ev : list event) (code : nat),
    wmain w = Ok (ev, code) ->
    length (filter is_close ev) = (if code =? 1 then 0 else 1) /\
    length (filter is_pause ev) = (if code =? 0 then 1 else 0) /\
    (code <> 1 ->
     exists before,
       ev = before ++ CloseHandle :: (if code =? 0 then [Pause] else [])).
Proof.
  intros P w ev code. unfold wmain.
  destruct (negb (WlanOpenHandle w =? ERROR_SUCCESS)%N).
  - intros [= <- <-]. cbn. repeat split. congruence.
  - destruct (WlanEnumInterfaces w) as [ret [ifs|]].
    + destruct (negb (ret =? ERROR_SUCCESS)%N).
      * intros [= <- <-]. cbn. repeat split. intros _.
        now exists [ErrEnumInterfaces ret; FreeMemory BlkInterfaceList].
      * destruct (interface_loop_ok ifs 0)
          as (ev0 & Hev & _ & _ & Hc & Hp & _).
        rewrite Hev. cbn [bind]. intros [= <- <-].
        rewrite !filter_app, Hc, Hp. cbn. repeat split. intros _.
        exists (ev0 ++ [FreeMemory BlkInterfaceList]).
        now rewrite <- app_assoc.
    + intros [= <- <-]. cbn. repeat split. intros _.
      now exists [ErrEnumInterfaces ret].
Qed.

Lemma wmain_closes_handle_once_witness :
  exists ev before,
    wmain (P := c_locale no_popen) example_host = Ok (ev, 0) /\
    length (filter is_close ev) = 1 /\
    length (filter is_pause ev) = 1 /\
    ev = before ++ [CloseHandle; Pause].
Proof.
  destruct (wmain_closes_handle_once (c_locale no_popen) example_host
              _ 0 eq_refl) as (Hc & Hp & Hlast).
  destruct (Hlast ltac:(discriminate)) as [before Hb].
  eexists. exists before. split; [reflexivity|].
  split; [exact Hc|]. split; [exact Hp | exact Hb].
Defined.

(** X15. No block of memory is released twice.  The interface list is
    released exactly when the handle was opened and a list was stored, also
    on the exit with code 2; the profile list of an interface and the
    document of a profile are released exactly when the program got them,
    and nothing else is released. *)
Theorem wmain_frees_each_block_once :
  forall (P : Platform) (w : wlan) (ev : list event) (code : nat),
    wmain w = Ok (ev, code) ->
    NoDup (freed ev) /\
    (In BlkInterfaceList (freed ev) <->
     WlanOpenHandle w = ERROR_SUCCESS /\ snd (WlanEnumInterfaces w) <> None) /\
    (forall i, In (BlkProfileList i) (freed ev) <->
               WlanOpenHandle w = ERROR_SUCCESS /\
               exists ifs, WlanEnumInterfaces w = (ERROR_SUCCESS, Some ifs) /\
                           has_profile_list ifs i) /\
    (forall i j, In (BlkProfileXml i j) (freed ev) <->
                 WlanOpenHandle w = ERROR_SUCCESS /\
                 exists ifs, WlanEnumInterfaces w = (ERROR_SUCCESS, Some ifs) /\
                             has_descriptor ifs i j).
Proof.
  intros P w ev code. unfold wmain.
  destruct (N.eqb_spec (WlanOpenHandle w) ERROR_SUCCESS) as [Ho|Ho];
    cbn [negb].
  2:{ intros [= <- <-]. cbn. split; [constructor|].
      repeat split; try tauto; intros; tauto. }
  destruct (WlanEnumInterfaces w) as [ret [ifs|]] eqn:He; cbn [fst snd].
  2:{ intros [= <- <-]. cbn. split; [constructor|].
      split; [split; [tauto | intros [_ Hn]; congruence]|].
      split; intros; (split; [tauto|]);
        intros [_ (ifs & Hbad & _)]; discriminate. }
  destruct (N.eqb_spec ret ERROR_SUCCESS) as [->|Hr]; cbn [negb].
  2:{ intros [= <- <-]. cbn.
      split; [constructor; [intros [] | constructor]|].
      split; [split; [intros _; split; [assumption | discriminate] | auto]|].
      split; intros; (split; [intros [Hb|[]]; discriminate Hb|]);
        intros [_ (ifs' & [= Hbad _] & _)]; congruence. }
  destruct (interface_loop_ok ifs 0) as (ev0 & Hev & _ & _ & _ & _ & Hnd & Hin).
  rewrite Hev. cbn [bind]. intros [= <- <-].
  rewrite freed_app. cbn [freed].
  assert (Hnot : ~ In BlkInterfaceList (freed ev0)).
  { intros Hb. apply Hin in Hb as (k & q & ps & _ & _ & [Hb|(j & p & x & Hb & _)]);
      discriminate Hb. }
  split; [|split; [|split]].
  - apply NoDup_app; [exact Hnd | constructor; [intros [] | constructor]|].
    intros b Hb [<-|[]]. exact (Hnot Hb).
  - split; [intros _; split; [assumption | discriminate]|].
    intros _. apply in_or_app. right. now left.
  - intros i. split.
    + intros Hb. apply in_app_or in Hb as [Hb|[Hb|[]]]; [|discriminate Hb].
      apply Hin in Hb as (k & q & ps & Hk & Hps & [[= ->]|(j & p & x & Hb & _)]);
        [|discriminate Hb].
      split; [assumption|]. exists ifs. split; [reflexivity|].
      now exists q, ps.
    + intros [_ (ifs' & [= <-] & q & ps & Hk & Hps)].
      apply in_or_app. left. apply Hin. exists i, q, ps. auto.
  - intros i j. split.
    + intros Hb. apply in_app_or in Hb as [Hb|[Hb|[]]]; [|discriminate Hb].
      apply Hin in Hb
        as (k & q & ps & Hk & Hps & [Hb|(j' & p & x & [= -> ->] & Hj & Hd)]);
        [discriminate Hb|].
      split; [assumption|]. exists ifs. split; [reflexivity|].
      now exists q, ps, p, x.
    + intros [_ (ifs' & [= <-] & q & ps & p & x & Hk & Hps & Hj & Hd)].
      apply in_or_app. left. apply Hin. exists i, q, ps.
      split; [assumption|]. split; [assumption|]. right.
      now exists j, p, x.
Qed.

Lemma wmain_frees_each_block_once_witness :
  exists ev,
    wmain (P := c_locale no_popen) example_host = Ok (ev, 0) /\
    freed ev = [BlkProfileXml 1 0; BlkProfileList 1; BlkInterfaceList] /\
    NoDup (freed ev) /\
    ~ In (BlkProfileList 0) (freed ev) /\
    ~ In (BlkProfileXml 1 1) (freed ev).
Proof.
  destruct (wmain_frees_each_block_once (c_locale no_popen) example_host
              _ 0 eq_refl) as (Hnd & _ & Hlist & Hxml).
  eexists. split; [reflexivity|]. split; [reflexivity|].
  split; [exact Hnd|]. split.
  - intros Hb. apply Hlist in Hb as (_ & ifs & [= <-] & q & ps & [= <-] & Hps).
    discriminate Hps.
  - intros Hb.
    apply Hxml in Hb
      as (_ & ifs & [= <-] & q & ps & p & x & [= <-] & [= <-] & [= <-] & Hd).
    discriminate Hd.
Defined.

(** X16. After a successful enumeration every interface gets its header
    line, in the order of the list: an interface whose profile list cannot
    be had does not stop the walk over the interfaces that follow. *)
Theorem wmain_visits_every_interface :
  forall (P : Platform) (w : wlan) (ifs : list interface_info)
         (ev : list event) (code : nat),
    WlanOpenHandle w = ERROR_SUCCESS ->
    WlanEnumInterfaces w = (ERROR_SUCCESS, Some ifs) ->
    wmain w = Ok (ev, code) ->
    filter is_header ev
    = map (fun iface => OutInterface (strInterfaceDescription iface)) ifs.
Proof.
  intros P w ifs ev code Ho He. unfold wmain. rewrite Ho, He. cbn [N.eqb negb].
  destruct (interface_loop_ok ifs 0) as (ev0 & Hev & _ & Hh & _).
  rewrite Hev. cbn [bind]. intros [= <- <-].
  rewrite filter_app, Hh. cbn. now rewrite app_nil_r.
Qed.

Lemma wmain_visits_every_interface_witness :
  exists ev,
    wmain (P := c_locale no_popen) example_host = Ok (ev, 0) /\
    filter is_header ev = [OutInterface (L "Wi-Fi 1"); OutInterface (L "Wi-Fi 2")].
Proof.
  eexists. split; [reflexivity|].
  exact (wmain_visits_every_interface (c_locale no_popen) example_host
           _ _ 0 eq_refl eq_refl eq_refl).
Defined.

(** X17. After a successful enumeration the program prints exactly one
    verdict line for each profile of each interface whose profile list it
    got, in order, and the line is the password or the "not available" line
    that the two-tier policy gives for that profile; interfaces without a
    list contribute no line. *)
Theorem wmain_one_verdict_per_profile :
  forall (P : Platform) (w : wlan) (ifs : list interface_info)
         (ev : list event) (code : nat),
    WlanOpenHandle w = ERROR_SUCCESS ->
    WlanEnumInterfaces w = (ERROR_SUCCESS, Some ifs) ->
    wmain w = Ok (ev, code) ->
    Forall2 verdict_of (flat_map listed ifs) (filter is_verdict ev).
Proof.
  intros P w ifs ev code Ho He. unfold wmain. rewrite Ho, He. cbn [N.eqb negb].
  destruct (interface_loop_ok ifs 0) as (ev0 & Hev & Hv & _).
  rewrite Hev. cbn [bind]. intros [= <- <-].
  rewrite filter_app. cbn. now rewrite app_nil_r.
Qed.

Lemma wmain_one_verdict_per_profile_witness :
  exists ev,
    wmain (P := c_locale no_popen) example_host = Ok (ev, 0) /\
    filter is_verdict ev = [OutPass (L "pw1"); OutNotAvailable] /\
    Forall2 (verdict_of (P := c_locale no_popen))
            (flat_map listed
               [ {| strInterfaceDescription := L "Wi-Fi 1";
                    WlanGetProfileList := (5%N, None) |};
                 {| strInterfaceDescription := L "Wi-Fi 2";
                    WlanGetProfileList :=
                      (ERROR_SUCCESS,
                       Some [ {| strProfileName := L "Home";
                                 WlanGetProfile :=
                                   (ERROR_SUCCESS,
                                    Some (L "<keyMaterial>pw1</keyMaterial>")) |};
                              {| strProfileName := L "Cafe";
                                 WlanGetProfile := (5%N, None) |} ]) |} ])
            (filter is_verdict ev).
Proof.
  eexists. split; [reflexivity|]. split; [reflexivity|].
  exact (wmain_one_verdict_per_profile (c_locale no_popen) example_host
           _ _ 0 eq_refl eq_refl eq_refl).
Defined.
